(** * objex: the shape helpers of the traversal engine

    A shallow embedding of [find_in_tuple_or_list], [get_keys_dst] and
    [get_dict_keys_dst] (objgraphdump/checkers.pyx), the helpers that turn an
    object and the list of its referents into labelled outbound edges.

    Objects are represented by their identity (the address the snapshot uses
    as primary key); the Python operator [is] is equality of identities.
    Generators are represented by their complete run: the items yielded, and
    the exception that ended the run when there is one. *)

From Stdlib Require Import String ZArith List Bool Lia Permutation Sorted.
Import ListNotations.
Local Open Scope Z_scope.

(** ** Identities, labels and edges *)

Definition ref := Z.

(** [a is b] *)
Definition is_ (a b : ref) : bool := a =? b.

(** The first component of an emitted tuple: an [int] position or a [str]. *)
Inductive label : Type :=
| LInt (i : Z)
| LStr (s : string).

Definition edge : Type := label * ref.

Definition label_eq_dec (a b : label) : {a = b} + {a <> b}.
Proof. decide equality; [apply Z.eq_dec | apply string_dec]. Defined.

Definition edge_eq_dec (a b : edge) : {a = b} + {a <> b}.
Proof. decide equality; [apply Z.eq_dec | apply label_eq_dec]. Defined.

(** The synthetic label of the edge from a dict to one of its keys. *)
Definition key_sentinel : string := "<key>"%string.

(** ** Runs of generators *)

Module Gen.

(** The exceptions of a run: the two that indexing and dict lookups raise
    themselves, and any other one that user code raises. *)
Inductive exn : Type :=
| IndexError
| KeyError
| OtherError (name : string).

(** What ends a run early: a Python exception, or the overflow of a C
    integer, after which the C source no longer says what the run does
    ([c_loop] below follows the built module beyond that point). *)
Inductive stop : Type :=
| Raised (e : exn)
| IntOverflow.

(** What was yielded, and what stopped the run, if anything did. *)
Definition gen (A : Type) : Type := list A * option stop.

Definition yielded {A} (g : gen A) : list A := fst g.
Definition stopped {A} (g : gen A) : option stop := snd g.

Definition skip {A} : gen A := ([], None).
Definition yield {A} (a : A) : gen A := ([a], None).
Definition raise {A} (e : exn) : gen A := ([], Some (Raised e)).
Definition overflow {A} : gen A := ([], Some IntOverflow).

(** Sequential composition: nothing runs after a stop. *)
Definition seq_ {A} (g1 g2 : gen A) : gen A :=
  match snd g1 with
  | Some e => g1
  | None => (fst g1 ++ fst g2, snd g2)
  end.

(** [for x in xs: body x] *)
Fixpoint for_ {X A} (xs : list X) (body : X -> gen A) : gen A :=
  match xs with
  | [] => skip
  | x :: rest => seq_ (body x) (for_ rest body)
  end.

End Gen.
Import Gen.

Notation "g1 ;; g2" := (seq_ g1 g2) (at level 61, right associativity).

(** ** C integers: [cdef int i] *)

Module CInt.

Definition INT_MAX : Z := 2 ^ 31 - 1.

(** The integers 0, 1, ..., n - 1. *)
Definition c_range (n : Z) : list Z := map Z.of_nat (seq 0 (Z.to_nat n)).

(** [for i in range(n)] with [cdef int i] and [n] a [Py_ssize_t]: the C loop
    [for (t = 0; t < n; t += 1) { i = t; body }] whose counter [t] is an
    [int].  The body runs for t = 0, 1, ... as long as t < n; when n exceeds
    [INT_MAX] the increment that follows the body at t = INT_MAX
    overflows. *)
Definition c_for {A} (n : Z) (body : Z -> gen A) : gen A :=
  for_ (c_range (Z.min n (INT_MAX + 1))) body ;;
  (if INT_MAX <? n then overflow else skip).

(** The values the counter of [c_for] takes in the body. *)
Definition positions_read (n : Z) : list Z := c_range (Z.min n (INT_MAX + 1)).

(** How the loop [c_for] ends when its body never stops the run. *)
Definition end_of_run (n : Z) : option stop :=
  if INT_MAX <? n then Some IntOverflow else None.

End CInt.
Import CInt.

(** ** Sequences *)

(** [items[i]] on a list or a tuple, with the bounds check and the wrap-around
    of negative indices; [None] is [IndexError]. *)
Definition index_checked (items : list ref) (i : Z) : option ref :=
  let n := Z.of_nat (length items) in
  let j := if i <? 0 then i + n else i in
  if (0 <=? j) && (j <? n) then nth_error items (Z.to_nat j) else None.

(** An object seen through [__len__] and [__getitem__]: [sq_getitem c i] is
    the item that [container[i]] gives, or [None] when [container[i]] raises,
    and then [sq_error c i] is the exception it raises. *)
Record pyseq : Type := {
  sq_len : Z;
  sq_getitem : Z -> option ref;
  sq_error : Z -> exn
}.

(** A list or a tuple seen through the sequence protocol; a failed read of a
    list or a tuple is an [IndexError]. *)
Definition as_sequence (items : list ref) : pyseq :=
  {| sq_len := Z.of_nat (length items);
     sq_getitem := index_checked items;
     sq_error := fun _ => IndexError |}.

Inductive container : Type :=
| CList (items : list ref)
| CTuple (items : list ref)
| CSeq (s : pyseq).

(** The branch [type(container) is list].  The position [i] is a C integer
    ([cdef int i]), so the loop over [range(len(list_container))] is the C
    loop [c_for]. *)
Definition find_in_list (obj : ref) (list_container : list ref) : gen Z :=
  c_for (Z.of_nat (length list_container)) (fun i =>
    match index_checked list_container i with
    | None => raise IndexError
    | Some x => if is_ x obj then yield i else skip
    end).

(** The branch [type(container) is tuple]. *)
Definition find_in_tuple (obj : ref) (tuple_container : list ref) : gen Z :=
  c_for (Z.of_nat (length tuple_container)) (fun i =>
    match index_checked tuple_container i with
    | None => raise IndexError
    | Some x => if is_ x obj then yield i else skip
    end).

(** The [else] branch: [len(container)] and [container[i]] through the
    protocol.  The branch has no handler: whatever [container[i]] raises
    ends the run. *)
Definition find_generic (obj : ref) (c : pyseq) : gen Z :=
  c_for (sq_len c) (fun i =>
    match sq_getitem c i with
    | None => raise (sq_error c i)
    | Some x => if is_ x obj then yield i else skip
    end).

(** What one iteration of the loop of any of the three branches yields. *)
Definition hit (obj : ref) (getitem : Z -> option ref) (i : Z) : list Z :=
  match getitem i with
  | Some x => if is_ x obj then [i] else []
  | None => []
  end.

Definition find_in_tuple_or_list (obj : ref) (c : container) : gen Z :=
  match c with
  | CList items => find_in_list obj items
  | CTuple items => find_in_tuple obj items
  | CSeq s => find_generic obj s
  end.

(** *** The loop as the built module runs it *)

(** The module is built with the flags of the interpreter, under which
    signed overflow wraps: [int] arithmetic keeps the low 32 bits. *)
Definition wrap_int (z : Z) : Z := (z + 2 ^ 31) mod 2 ^ 32 - 2 ^ 31.

(** At most [steps] iterations of the loop of [c_for], from the value [t] of
    its counter: [if (t < n) { i = t; body; t += 1 }], the comparison in
    [Py_ssize_t], the increment in [int].  The result is the run so far, and
    whether the loop has ended. *)
Fixpoint c_loop {A} (steps : nat) (n t : Z) (body : Z -> gen A)
  : gen A * bool :=
  match steps with
  | O => (skip, negb (t <? n))
  | S k =>
      if t <? n then
        let rest := c_loop k n (wrap_int (t + 1)) body in
        (body t ;; fst rest,
         match stopped (body t) with
         | Some _ => true
         | None => snd rest
         end)
      else (skip, true)
  end.

(** The body of the loop of the list branch. *)
Definition list_body (obj : ref) (list_container : list ref) (i : Z) : gen Z :=
  match index_checked list_container i with
  | None => raise IndexError
  | Some x => if is_ x obj then yield i else skip
  end.

(** The list branch of [find_in_tuple_or_list] in the built module, for at
    most [steps] iterations. *)
Definition find_in_list_built (steps : nat) (obj : ref)
           (list_container : list ref) : gen Z * bool :=
  c_loop steps (Z.of_nat (length list_container)) 0
         (list_body obj list_container).

(** The builtin [enumerate]. *)
Fixpoint enumerate_from (start : Z) (items : list ref) : list edge :=
  match items with
  | [] => []
  | x :: rest => (LInt start, x) :: enumerate_from (start + 1) rest
  end.

Definition enumerate (items : list ref) : gen edge :=
  (enumerate_from 0 items, None).

(** ** Dicts *)

(** The entries of a dict, in insertion order. *)
Definition dict : Type := list (ref * ref).

Definition dict_keys (d : dict) : list ref := map fst d.
Definition dict_values (d : dict) : list ref := map snd d.

(** What [get_keys_dst] dispatches on: [type(obj)], and whether the object
    has a [__dict__]. *)
Inductive pyobj : Type :=
| PyList (items : list ref)
| PyTuple (items : list ref)
| PyDict (d : dict)
| PyOther (dunder_dict : option dict).

(** What [get_keys_dst] returns: an iterator, or [None] when the function
    falls off its end. *)
Inductive pyval : Type :=
| Iterator (g : gen edge)
| PyNone.

Section Heap.

(** The heap is frozen during the walk: [repr] and key equality are
    functions of the identities. *)
Variable repr : ref -> string.

(** [key_eq stored probe]: the hashes agree and [stored == probe]. *)
Variable key_eq : ref -> ref -> bool.

(** The test of a dict lookup: identity first, then equality. *)
Definition key_match (stored probe : ref) : bool :=
  is_ stored probe || key_eq stored probe.

(** [d[key]]; [None] is [KeyError]. *)
Definition dict_getitem (d : dict) (key : ref) : option ref :=
  match find (fun e => key_match (fst e) key) d with
  | Some e => Some (snd e)
  | None => None
  end.

(** No two keys of a dict match each other. *)
Definition dict_wf (d : dict) : Prop :=
  ForallOrdPairs
    (fun e1 e2 => key_match (fst e1) (fst e2) = false
                  /\ key_match (fst e2) (fst e1) = false) d.

Definition get_dict_keys_dst (obj : dict) (referents : list ref) : gen edge :=
  for_ referents (fun ref_ =>
    for_ (dict_keys obj) (fun key =>
      (if is_ ref_ key then yield (LStr key_sentinel, ref_) else skip) ;;
      match dict_getitem obj key with
      | None => raise KeyError
      | Some v => if is_ v ref_ then yield (LStr (repr key), ref_) else skip
      end)).

(** The last branch of the source is unfinished: it collects one-element
    tuples [('<key>',)] in [results] and returns nothing. *)
Definition get_keys_dst (obj : pyobj) (referents : list ref) : pyval :=
  match obj with
  | PyList items => Iterator (enumerate items)
  | PyTuple items => Iterator (enumerate items)
  | PyDict d => Iterator (get_dict_keys_dst d referents)
  | PyOther dunder_dict =>
      let results : list label :=
        match dunder_dict with
        | Some attrs => map (fun _ => LStr key_sentinel) (dict_keys attrs)
        | None => []
        end in
      PyNone
  end.

(** *** The edges of a dict, as the specification lists them *)

Definition key_edge (e : ref * ref) : edge := (LStr key_sentinel, fst e).
Definition value_edge (e : ref * ref) : edge := (LStr (repr (fst e)), snd e).

(** Both edges of every entry, in insertion order. *)
Definition entry_edges (e : ref * ref) : list edge := [key_edge e; value_edge e].
Definition all_edges (d : dict) : list edge := flat_map entry_edges d.

Definition dst_is (r : ref) (e : edge) : bool := is_ (snd e) r.

(** What one iteration of the inner loop of [get_dict_keys_dst] yields. *)
Definition step_edges (obj : dict) (ref_ key : ref) : list edge :=
  (if is_ ref_ key then [(LStr key_sentinel, ref_)] else [])
  ++ match dict_getitem obj key with
     | Some v => if is_ v ref_ then [(LStr (repr key), ref_)] else []
     | None => []
     end.

(** The edges of the entries, each as often as its destination occurs
    among the referents. *)
Definition key_edges_of (d : dict) (referents : list ref) : list edge :=
  flat_map (fun e => repeat (key_edge e) (count_occ Z.eq_dec referents (fst e))) d.
Definition value_edges_of (d : dict) (referents : list ref) : list edge :=
  flat_map (fun e => repeat (value_edge e) (count_occ Z.eq_dec referents (snd e))) d.

(** Edges are in insertion order when they can be attributed to entries at
    positions that never decrease along the run. *)
Definition insertion_ordered (d : dict) (out : list edge) : Prop :=
  exists ps : list nat,
    StronglySorted le ps
    /\ Forall2 (fun p x => exists e, nth_error d p = Some e
                                    /\ In x (entry_edges e)) ps out.

End Heap.

(** ** Dicts and the user code that a lookup runs *)

(** An entry of a dict as the interpreter keeps it: the hash the key had
    when it was inserted, the key and the value. *)
Record entry : Type := {
  e_hash : Z;
  e_key : ref;
  e_value : ref
}.

Definition hdict : Type := list entry.

Definition hdict_keys (d : hdict) : list ref := map e_key d.

Section UserCode.

(** The calls into user code, each of which gives a result or raises:
    [hash(key)] as it is now, [stored == probe], and [repr(key)]. *)
Variable hash_ : ref -> exn + Z.
Variable eq_ : ref -> ref -> exn + bool.
Variable repr_ : ref -> exn + string.

(** The search of a lookup among the entries, for a key of hash [h]: only
    entries stored under [h] are compared, by identity first and by
    equality next; no entry left is [KeyError]. *)
Fixpoint probe (h : Z) (key : ref) (es : list entry) : exn + ref :=
  match es with
  | [] => inl KeyError
  | e :: rest =>
      if e_hash e =? h then
        if is_ (e_key e) key then inr (e_value e)
        else match eq_ (e_key e) key with
             | inl x => inl x
             | inr true => inr (e_value e)
             | inr false => probe h key rest
             end
      else probe h key rest
  end.

(** [d[key]] *)
Definition hdict_getitem (d : hdict) (key : ref) : exn + ref :=
  match hash_ key with
  | inl x => inl x
  | inr h => probe h key d
  end.

(** [get_dict_keys_dst] with its calls into user code: the function has no
    handler, so an exception of [obj[key]] or of [repr(key)] ends the
    run. *)
Definition get_dict_keys_dst_calls (obj : hdict) (referents : list ref)
  : gen edge :=
  for_ referents (fun ref_ =>
    for_ (hdict_keys obj) (fun key =>
      (if is_ ref_ key then yield (LStr key_sentinel, ref_) else skip) ;;
      match hdict_getitem obj key with
      | inl x => raise x
      | inr v =>
          if is_ v ref_ then
            match repr_ key with
            | inl x => raise x
            | inr s => yield (LStr s, ref_)
            end
          else skip
      end)).

End UserCode.

(** The dict of the sections above as the interpreter keeps it when hashes
    play no part: every key stored under the same hash. *)
Definition with_hashes (d : dict) : hdict :=
  map (fun e => {| e_hash := 0; e_key := fst e; e_value := snd e |}) d.

(** How many edges of a run point to an object. *)
Definition count_dst (o : ref) (out : list edge) : nat :=
  length (filter (dst_is o) out).

(** How many entries of a dict have an object as their value, as their key. *)
Definition entries_with_value (o : ref) (d : dict) : nat :=
  length (filter (fun e => is_ (snd e) o) d).
Definition entries_with_key (o : ref) (d : dict) : nat :=
  length (filter (fun e => is_ (fst e) o) d).

(** ** Sample heaps *)

(** A heap where no two distinct objects are equal. *)
Definition eq_never (stored probe : ref) : bool := false.

(** A heap where objects are equal when their identities agree modulo 100
    (equal objects at different addresses). *)
Definition eq_mod100 (stored probe : ref) : bool :=
  stored mod 100 =? probe mod 100.

(** [repr] of a user instance: the default [<C object at ...>], shortened. *)
Definition short_repr (r : ref) : string :=
  if r =? 1 then "<C 1>"%string else if r =? 2 then "<C 2>"%string else "<C>"%string.

(** User code that never raises: every key hashes to 5, no two distinct
    objects are equal, and [repr] is [short_repr]. *)
Definition hash_five (r : ref) : exn + Z := inr 5.
Definition eq_false (stored probe : ref) : exn + bool := inr false.
Definition repr_short (r : ref) : exn + string := inr (short_repr r).

(** A key whose hash is now 6. *)
Definition hash_six (r : ref) : exn + Z := inr 6.

(** A [__repr__] that raises. *)
Definition repr_raises (r : ref) : exn + string :=
  inl (OtherError "ValueError").

(** A [repr] of 65 characters for every object. *)
Definition long_repr (r : ref) : string :=
  "aaaaaaaaaaaaaaaaaaaaaaaaaaaaaaaaaaaaaaaaaaaaaaaaaaaaaaaaaaaaaaaaa"%string.

(** ** Notions used by the further properties *)

(** The positions, counted from [start], at which an object occurs in a
    sequence. *)
Fixpoint positions_from (obj : ref) (start : Z) (items : list ref) : list Z :=
  match items with
  | [] => []
  | x :: rest =>
      (if is_ x obj then [start] else []) ++ positions_from obj (start + 1) rest
  end.

(** The edges that the value returned by [get_keys_dst] yields; none when
    the value is [None]. *)
Definition edges_of (v : pyval) : list edge :=
  match v with
  | Iterator g => yielded g
  | PyNone => []
  end.

(** Whether an object is, by identity, a key or a value of a dict. *)
Definition key_or_value (d : dict) (r : ref) : bool :=
  existsb (is_ r) (dict_keys d) || existsb (is_ r) (dict_values d).

(** ** Sample sequences that are neither lists nor tuples *)

(** Four items computed from the position: 0, 1, 0, 1. *)
Definition alternating : pyseq :=
  {| sq_len := 4;
     sq_getitem := fun i => Some (i mod 2);
     sq_error := fun _ => IndexError |}.

(** A dict subclass with five entries of which only the keys 0 and 1 are
    positions: [container[i]] raises [KeyError] from position 2 on. *)
Definition overstated : pyseq :=
  {| sq_len := 5;
     sq_getitem := fun i => if i <? 2 then Some 7 else None;
     sq_error := fun _ => KeyError |}.

(** * Properties *)

(** Case analysis on the first identity test of the goal. *)
Ltac case_eqb :=
  match goal with
  | |- context [Z.eqb ?a ?b] => destruct (Z.eqb_spec a b)
  end.

(** ** Runs *)

Lemma for_pure {X A} (xs : list X) (body : X -> gen A) :
  (forall x, In x xs -> stopped (body x) = None) ->
  for_ xs body = (flat_map (fun x => yielded (body x)) xs, None).
Proof.
  induction xs as [|x rest IH]; intros Hok; [reflexivity|].
  cbn [for_ flat_map]. unfold seq_.
  pose proof (Hok x (or_introl eq_refl)) as Hx. unfold stopped in Hx.
  rewrite Hx, IH by (intros y Hy; apply Hok; now right).
  reflexivity.
Qed.

(** ** C integers *)

Lemma in_c_range i n : In i (c_range n) <-> 0 <= i < n.
Proof.
  unfold c_range. rewrite in_map_iff. split.
  - intros (k & <- & Hk). apply in_seq in Hk. lia.
  - intros H. exists (Z.to_nat i). split; [lia|]. apply in_seq. lia.
Qed.

Lemma c_range_sorted n : StronglySorted Z.lt (c_range n).
Proof.
  unfold c_range. generalize 0%nat.
  induction (Z.to_nat n) as [|k IH]; intros a; cbn; constructor.
  - apply IH.
  - apply Forall_forall. intros z Hz. apply in_map_iff in Hz.
    destruct Hz as (j & <- & Hj). apply in_seq in Hj. lia.
Qed.

(** ** Indexing *)

Lemma index_checked_inside items i :
  0 <= i < Z.of_nat (length items) ->
  index_checked items i = nth_error items (Z.to_nat i)
  /\ exists x, nth_error items (Z.to_nat i) = Some x.
Proof.
  intros H. unfold index_checked.
  destruct (Z.ltb_spec i 0); [lia|].
  destruct (Z.leb_spec 0 i); [|lia].
  destruct (Z.ltb_spec i (Z.of_nat (length items))); [|lia].
  split; [reflexivity|].
  destruct (nth_error items (Z.to_nat i)) eqn:E; [eauto|].
  apply nth_error_None in E. lia.
Qed.

Lemma c_for_run {A} n (body : Z -> gen A) :
  (forall i, 0 <= i < n -> stopped (body i) = None) ->
  c_for n body
  = (flat_map (fun i => yielded (body i)) (positions_read n), end_of_run n).
Proof.
  intros Hok. unfold c_for, positions_read, end_of_run. rewrite for_pure.
  - unfold seq_. cbn [fst snd].
    destruct (INT_MAX <? n); cbn [fst snd overflow skip]; now rewrite app_nil_r.
  - intros i Hi. apply in_c_range in Hi. apply Hok. lia.
Qed.

Lemma find_in_list_run obj items :
  find_in_list obj items =
  (flat_map (hit obj (index_checked items))
            (positions_read (Z.of_nat (length items))),
   end_of_run (Z.of_nat (length items))).
Proof.
  unfold find_in_list. rewrite c_for_run.
  - f_equal. apply flat_map_ext. intros i. unfold hit.
    destruct (index_checked items i) as [x|]; [|reflexivity].
    now destruct (is_ x obj).
  - intros i Hi.
    destruct (index_checked_inside items i) as [-> [x ->]]; [lia|].
    now destruct (is_ x obj).
Qed.

Lemma find_in_tuple_as_list obj items :
  find_in_tuple obj items = find_in_list obj items.
Proof. reflexivity. Qed.

Lemma find_generic_as_list obj items :
  find_generic obj (as_sequence items) = find_in_list obj items.
Proof. reflexivity. Qed.

Lemma hit_sorted obj getitem xs :
  StronglySorted Z.lt xs ->
  StronglySorted Z.lt (flat_map (hit obj getitem) xs).
Proof.
  induction 1 as [|x xs Hs IH Hx]; cbn; [constructor|].
  assert (Hsub : forall y, In y (flat_map (hit obj getitem) xs) -> In y xs).
  { intros y Hy. apply in_flat_map in Hy. destruct Hy as (z & Hz & Hy).
    unfold hit in Hy. destruct (getitem z) as [w|]; [|easy].
    destruct (is_ w obj); [|easy]. destruct Hy as [<-|[]]. exact Hz. }
  unfold hit at 1. destruct (getitem x) as [w|]; [|exact IH].
  destruct (is_ w obj); [|exact IH].
  cbn. constructor; [exact IH|].
  apply Forall_forall. intros y Hy. rewrite Forall_forall in Hx. auto.
Qed.

Lemma StronglySorted_lt_NoDup xs : StronglySorted Z.lt xs -> NoDup xs.
Proof.
  induction 1 as [|x xs Hs IH Hx]; constructor; [|exact IH].
  intros Hin. rewrite Forall_forall in Hx. specialize (Hx x Hin). lia.
Qed.

(** ** Dict lookups *)

Section DictFacts.

Variable repr : ref -> string.
Variable key_eq : ref -> ref -> bool.

Local Abbreviation getitem := (dict_getitem key_eq).
Local Abbreviation wf := (dict_wf key_eq).
Local Abbreviation run := (get_dict_keys_dst repr key_eq).

Lemma key_match_same k : key_match key_eq k k = true.
Proof. unfold key_match, is_. now rewrite Z.eqb_refl. Qed.

(** A key that the iteration over the dict produced is found again. *)
Lemma getitem_present d key :
  In key (dict_keys d) -> exists v, getitem d key = Some v.
Proof.
  intros Hin. unfold dict_getitem.
  destruct (find _ d) as [e|] eqn:E; [eauto|].
  apply in_map_iff in Hin. destruct Hin as (e & <- & He).
  pose proof (find_none _ _ E e He) as Hf. cbn in Hf.
  now rewrite key_match_same in Hf.
Qed.

Lemma wf_tail e d : wf (e :: d) -> wf d.
Proof. intros H. now inversion H. Qed.

(** In a well-formed dict a stored key leads to its own value. *)
Lemma getitem_own d k v : wf d -> In (k, v) d -> getitem d k = Some v.
Proof.
  induction d as [|e d IH]; intros Hwf Hin; [easy|].
  inversion Hwf as [|? ? Hhead Htail]; subst.
  unfold dict_getitem. cbn [find].
  destruct Hin as [->|Hin].
  - cbn [fst snd]. now rewrite key_match_same.
  - rewrite Forall_forall in Hhead.
    destruct (Hhead _ Hin) as [Hne _]. cbn [fst] in Hne.
    rewrite Hne. now apply IH.
Qed.

Lemma wf_keys_NoDup d : wf d -> NoDup (dict_keys d).
Proof.
  induction d as [|e d IH]; intros Hwf; cbn; constructor.
  - inversion Hwf as [|? ? Hhead _]; subst.
    intros Hin. apply in_map_iff in Hin. destruct Hin as (e' & Hk & He').
    rewrite Forall_forall in Hhead. destruct (Hhead _ He') as [Hne _].
    rewrite Hk, key_match_same in Hne. discriminate.
  - apply IH. eapply wf_tail; eauto.
Qed.

(** *** The run of [get_dict_keys_dst] *)

Lemma inner_loop_run d r keys :
  incl keys (dict_keys d) ->
  for_ keys (fun key =>
      (if is_ r key then yield (LStr key_sentinel, r) else skip) ;;
      match getitem d key with
      | None => raise KeyError
      | Some v => if is_ v r then yield (LStr (repr key), r) else skip
      end)
  = (flat_map (step_edges repr key_eq d r) keys, None).
Proof.
  intros Hincl. rewrite for_pure.
  - apply (f_equal (fun l => (l, @None stop))). apply flat_map_ext. intros key. unfold step_edges.
    destruct (is_ r key); destruct (getitem d key) as [v|];
      try destruct (is_ v r); reflexivity.
  - intros key Hkey. destruct (getitem_present d key (Hincl _ Hkey)) as [v ->].
    destruct (is_ r key); destruct (is_ v r); reflexivity.
Qed.

Lemma dict_run d referents :
  run d referents =
  (flat_map (fun r => flat_map (step_edges repr key_eq d r) (dict_keys d))
            referents, None).
Proof.
  unfold get_dict_keys_dst. rewrite for_pure.
  - apply (f_equal (fun l => (l, @None stop))). apply flat_map_ext. intros r.
    now rewrite inner_loop_run by apply incl_refl.
  - intros r _. now rewrite inner_loop_run by apply incl_refl.
Qed.

Lemma step_edges_own d r k v :
  getitem d k = Some v ->
  step_edges repr key_eq d r k = filter (dst_is r) (entry_edges repr (k, v)).
Proof.
  intros Hget. unfold step_edges, entry_edges, key_edge, value_edge, dst_is, is_.
  rewrite Hget. cbn [filter fst snd].
  rewrite (Z.eqb_sym r k).
  destruct (Z.eqb_spec k r) as [->|_]; destruct (Z.eqb_spec v r) as [->|_];
    reflexivity.
Qed.

Lemma filter_flat_map {A B} (p : B -> bool) (f : A -> list B) xs :
  filter p (flat_map f xs) = flat_map (fun x => filter p (f x)) xs.
Proof.
  induction xs as [|x xs IH]; [reflexivity|].
  cbn. now rewrite filter_app, IH.
Qed.

Lemma inner_edges_sub d r es :
  wf d -> incl es d ->
  flat_map (step_edges repr key_eq d r) (dict_keys es)
  = filter (dst_is r) (all_edges repr es).
Proof.
  intros Hwf. induction es as [|[k v] es IH]; intros Hincl; [reflexivity|].
  cbn [dict_keys map flat_map all_edges fst].
  rewrite filter_app, <- (step_edges_own d r k v).
  - f_equal. apply IH. intros e He. apply Hincl. now right.
  - apply getitem_own; [exact Hwf|]. apply Hincl. now left.
Qed.

(** The run on a well-formed dict: for each referent in turn, the edges of
    the dict that point to it, in insertion order. *)
Lemma dict_run_wf d referents :
  wf d ->
  run d referents =
  (flat_map (fun r => filter (dst_is r) (all_edges repr d)) referents, None).
Proof.
  intros Hwf. rewrite dict_run.
  apply (f_equal (fun l => (l, @None stop))). apply flat_map_ext. intros r.
  apply inner_edges_sub; [exact Hwf | apply incl_refl].
Qed.

Lemma in_all_edges d e :
  In e d -> In (key_edge e) (all_edges repr d)
            /\ In (value_edge repr e) (all_edges repr d).
Proof.
  intros He. unfold all_edges. split; apply in_flat_map; exists e;
    (split; [exact He | cbn; auto]).
Qed.

Lemma in_dict_run_wf d referents x :
  wf d ->
  In x (yielded (run d referents)) <->
  In (snd x) referents /\ In x (all_edges repr d).
Proof.
  intros Hwf. rewrite dict_run_wf by exact Hwf. cbn [yielded fst].
  rewrite in_flat_map. split.
  - intros (r & Hr & Hx). apply filter_In in Hx. destruct Hx as [Hx Hd].
    unfold dst_is, is_ in Hd. apply Z.eqb_eq in Hd. now subst r.
  - intros [Hr Hx]. exists (snd x). split; [exact Hr|].
    apply filter_In. split; [exact Hx|]. unfold dst_is, is_. apply Z.eqb_refl.
Qed.

End DictFacts.

(** ** Multiplicities *)

Lemma flat_map_app_perm {A B} (f g : A -> list B) l :
  Permutation (flat_map (fun x => f x ++ g x) l) (flat_map f l ++ flat_map g l).
Proof.
  induction l as [|x l IH]; cbn; [constructor|].
  rewrite IH, <- !app_assoc. apply Permutation_app_head.
  rewrite !app_assoc. apply Permutation_app_tail, Permutation_app_comm.
Qed.

Lemma flat_map_nested {A B C} (f : B -> list C) (g : A -> list B) l :
  flat_map f (flat_map g l) = flat_map (fun x => flat_map f (g x)) l.
Proof.
  induction l as [|x l IH]; cbn; [reflexivity|].
  now rewrite flat_map_app, IH.
Qed.

Lemma flat_map_nil {A B} (l : list A) : flat_map (fun _ => @nil B) l = [].
Proof. induction l; cbn; auto. Qed.

Lemma filter_as_flat_map {A} (p : A -> bool) l :
  filter p l = flat_map (fun x => if p x then [x] else []) l.
Proof.
  induction l as [|x l IH]; cbn; [reflexivity|].
  rewrite IH. now destruct (p x).
Qed.

(** Selecting, for each referent in turn, the edges that point to it gives
    every edge as often as its destination occurs among the referents. *)
Lemma select_by_referent (E : list edge) referents :
  Permutation
    (flat_map (fun r => filter (dst_is r) E) referents)
    (flat_map (fun e => repeat e (count_occ Z.eq_dec referents (snd e))) E).
Proof.
  induction referents as [|r rs IH].
  - cbn. now rewrite flat_map_nil.
  - cbn [flat_map]. rewrite IH, filter_as_flat_map, <- flat_map_app_perm.
    apply Permutation_refl'. apply flat_map_ext. intros e.
    cbn [count_occ]. unfold dst_is, is_.
    destruct (Z.eq_dec r (snd e)) as [->|Hne].
    + now rewrite Z.eqb_refl.
    + case_eqb; [exfalso; apply Hne; symmetry; assumption | reflexivity].
Qed.

Lemma filter_length_perm {A} (p : A -> bool) l l' :
  Permutation l l' -> length (filter p l) = length (filter p l').
Proof.
  induction 1 as [|x l l' _ IH|x y l|l l' l'' _ IH1 _ IH2]; cbn.
  - reflexivity.
  - destruct (p x); cbn; now rewrite IH.
  - destruct (p x), (p y); reflexivity.
  - now rewrite IH1.
Qed.

Lemma filter_repeat_length {A} (p : A -> bool) x n :
  length (filter p (repeat x n)) = if p x then n else 0%nat.
Proof.
  induction n as [|n IH]; cbn; [now destruct (p x)|].
  destruct (p x); cbn; now rewrite ?IH.
Qed.

Lemma count_dst_app o l l' :
  count_dst o (l ++ l') = (count_dst o l + count_dst o l')%nat.
Proof. unfold count_dst. now rewrite filter_app, length_app. Qed.

Section Multiplicity.

Variable repr : ref -> string.

Lemma all_edges_per_entry d referents :
  flat_map (fun e => repeat e (count_occ Z.eq_dec referents (snd e)))
           (all_edges repr d)
  = flat_map (fun e =>
                repeat (key_edge e) (count_occ Z.eq_dec referents (fst e))
                ++ repeat (value_edge repr e)
                          (count_occ Z.eq_dec referents (snd e))) d.
Proof.
  unfold all_edges. rewrite flat_map_nested. apply flat_map_ext. intros e.
  cbn [entry_edges flat_map key_edge value_edge snd]. now rewrite app_nil_r.
Qed.

Lemma all_edges_with_multiplicity d referents :
  Permutation
    (flat_map (fun e => repeat e (count_occ Z.eq_dec referents (snd e)))
              (all_edges repr d))
    (key_edges_of d referents ++ value_edges_of repr d referents).
Proof.
  rewrite all_edges_per_entry. apply flat_map_app_perm.
Qed.

Lemma count_dst_value_edges o d referents :
  count_dst o (value_edges_of repr d referents)
  = (count_occ Z.eq_dec referents o * entries_with_value o d)%nat.
Proof.
  unfold value_edges_of, entries_with_value.
  induction d as [|e d IH]; [cbn; lia|].
  cbn [flat_map filter]. rewrite count_dst_app, IH.
  unfold count_dst at 1. rewrite filter_repeat_length.
  unfold dst_is, value_edge, is_. cbn [snd].
  case_eqb; subst; cbn [length]; lia.
Qed.

Lemma count_dst_key_edges o d referents :
  count_dst o (key_edges_of d referents)
  = (count_occ Z.eq_dec referents o * entries_with_key o d)%nat.
Proof.
  unfold key_edges_of, entries_with_key.
  induction d as [|e d IH]; [cbn; lia|].
  cbn [flat_map filter]. rewrite count_dst_app, IH.
  unfold count_dst at 1. rewrite filter_repeat_length.
  unfold dst_is, key_edge, is_. cbn [snd].
  case_eqb; subst; cbn [length]; lia.
Qed.

(** The run on a well-formed dict, up to the order of the edges. *)
Lemma dict_run_perm key_eq d referents :
  dict_wf key_eq d ->
  Permutation (yielded (get_dict_keys_dst repr key_eq d referents))
              (key_edges_of d referents ++ value_edges_of repr d referents).
Proof.
  intros Hwf. rewrite dict_run_wf by exact Hwf. cbn [yielded fst].
  rewrite select_by_referent. apply all_edges_with_multiplicity.
Qed.

End Multiplicity.

(** * The claims *)

Ltac dict_wf_by_computation :=
  unfold dict_wf; repeat (constructor; cbn); reflexivity.

(** ** Dicts with object keys *)

(** C1. When a dict has an entry with key K and value V, and both K and V
    are among the referents handed to the dict adapter, the run of
    [get_dict_keys_dst] contains the pair ('<key>', K) and the pair
    (repr(K), V). *)
Theorem dict_object_key_edges repr key_eq (d : dict) (K V : ref) referents :
  dict_wf key_eq d ->
  In (K, V) d -> In K referents -> In V referents ->
  In (LStr key_sentinel, K) (yielded (get_dict_keys_dst repr key_eq d referents))
  /\ In (LStr (repr K), V) (yielded (get_dict_keys_dst repr key_eq d referents)).
Proof.
  intros Hwf Hin HK HV.
  destruct (in_all_edges repr d (K, V) Hin) as [Hk Hv].
  split; apply in_dict_run_wf; auto.
Qed.

Lemma dict_object_key_edges_witness :
  dict_wf eq_never [(1, 2)]
  /\ In (LStr key_sentinel, 1)
        (yielded (get_dict_keys_dst short_repr eq_never [(1, 2)] [2; 1]))
  /\ In (LStr "<C 1>"%string, 2)
        (yielded (get_dict_keys_dst short_repr eq_never [(1, 2)] [2; 1])).
Proof.
  split; [dict_wf_by_computation|].
  apply (dict_object_key_edges short_repr eq_never [(1, 2)] 1 2 [2; 1]).
  - dict_wf_by_computation.
  - cbn; auto.
  - cbn; auto.
  - cbn; auto.
Defined.

(** C2, as stated (value edge labelled with the sentinel once the key's
    representation exceeds 64 characters), fails: with a representation of
    65 characters the value edge still carries the literal, and no edge to
    the value carries the sentinel. *)
Lemma long_key_repr_is_stored_literally :
  (64 < String.length (long_repr 1%Z))%nat
  /\ yielded (get_dict_keys_dst long_repr eq_never [(1, 2)] [1; 2])
     = [(LStr key_sentinel, 1); (LStr (long_repr 1), 2)]
  /\ ~ In (LStr key_sentinel, 2)
          (yielded (get_dict_keys_dst long_repr eq_never [(1, 2)] [1; 2])).
Proof.
  split; [cbn; lia|]. split; [reflexivity|].
  cbn. intros [H|[H|[]]]; discriminate H.
Qed.

(** C2, amended. The label of a value edge does not depend on the length of
    the key's representation: for every entry (K, V) with V among the
    referents the pair (repr(K), V) is emitted, and every emitted pair is
    either ('<key>', k) for a key k of the dict or (repr(k), v) for an entry
    (k, v) of the dict. *)
Theorem dict_value_edge_label_is_repr repr key_eq (d : dict) referents :
  dict_wf key_eq d ->
  (forall K V, In (K, V) d -> In V referents ->
     In (LStr (repr K), V) (yielded (get_dict_keys_dst repr key_eq d referents)))
  /\ (forall lbl dst,
        In (lbl, dst) (yielded (get_dict_keys_dst repr key_eq d referents)) ->
        (lbl = LStr key_sentinel /\ In dst (dict_keys d))
        \/ (exists k, In (k, dst) d /\ lbl = LStr (repr k))).
Proof.
  intros Hwf. split.
  - intros K V Hin HV. apply in_dict_run_wf; [exact Hwf|]. split; [exact HV|].
    apply (in_all_edges repr d (K, V) Hin).
  - intros lbl dst Hin. apply in_dict_run_wf in Hin; [|exact Hwf].
    destruct Hin as [_ Hin]. unfold all_edges in Hin.
    apply in_flat_map in Hin. destruct Hin as ([k v] & He & Hx).
    cbn in Hx. destruct Hx as [Hx|[Hx|[]]]; injection Hx as <- <-.
    + left. split; [reflexivity|]. apply in_map_iff. now exists (k, v).
    + right. now exists k.
Qed.

Lemma dict_value_edge_label_is_repr_witness :
  (64 < String.length (long_repr 1%Z))%nat
  /\ In (LStr (long_repr 1), 2)
        (yielded (get_dict_keys_dst long_repr eq_never [(1, 2)] [1; 2])).
Proof.
  split; [cbn; lia|].
  apply (dict_value_edge_label_is_repr long_repr eq_never [(1, 2)] [1; 2]).
  - dict_wf_by_computation.
  - cbn; auto.
  - cbn; auto.
Defined.

(** ** Lists and tuples *)

Lemma enumerate_from_nth items : forall start i,
  nth_error (enumerate_from start items) i
  = option_map (fun x => (LInt (start + Z.of_nat i), x)) (nth_error items i).
Proof.
  induction items as [|x rest IH]; intros start i.
  - now destruct i.
  - destruct i as [|i]; cbn [enumerate_from nth_error option_map].
    + now rewrite Z.add_0_r.
    + rewrite IH. destruct (nth_error rest i); cbn; [|reflexivity].
      do 3 f_equal. lia.
Qed.

Lemma enumerate_from_length items : forall start,
  length (enumerate_from start items) = length items.
Proof. induction items; intros; cbn; auto. Qed.

(** C3. For a list or a tuple c, [get_keys_dst] returns an iterator that
    never raises and yields exactly the pairs (i, c[i]), one for each
    position, in increasing order of the positions, whatever the referents
    are. *)
Theorem get_keys_dst_sequence repr key_eq (c : list ref) (r : list ref) :
  exists out,
    get_keys_dst repr key_eq (PyList c) r = Iterator (out, None)
    /\ get_keys_dst repr key_eq (PyTuple c) r = Iterator (out, None)
    /\ length out = length c
    /\ (forall i, nth_error out i
                  = option_map (fun x => (LInt (Z.of_nat i), x)) (nth_error c i))
    /\ (forall r', get_keys_dst repr key_eq (PyList c) r' = Iterator (out, None)
                   /\ get_keys_dst repr key_eq (PyTuple c) r' = Iterator (out, None)).
Proof.
  exists (enumerate_from 0 c). repeat split.
  - apply enumerate_from_length.
  - intros i. now rewrite enumerate_from_nth.
Qed.

(** ** One value edge per entry *)

Lemma repeat_once_map {A B} (f : A -> B) (n : A -> nat) l :
  (forall x, In x l -> n x = 1%nat) ->
  flat_map (fun x => repeat (f x) (n x)) l = map f l.
Proof.
  induction l as [|x l IH]; intros H; [reflexivity|].
  cbn [flat_map map]. rewrite (H x (or_introl eq_refl)), IH.
  - reflexivity.
  - intros y Hy. apply H. now right.
Qed.

(** C4. When every key and every value of a dict occurs exactly once among
    the referents, the run of [get_dict_keys_dst] consists, up to order, of
    one '<key>' pair per entry and exactly one (repr(key), value) pair per
    entry: no entry is skipped and none gives two value edges. *)
Theorem dict_one_value_edge_per_entry repr key_eq (d : dict) referents :
  dict_wf key_eq d ->
  (forall k, In k (dict_keys d) -> count_occ Z.eq_dec referents k = 1%nat) ->
  (forall v, In v (dict_values d) -> count_occ Z.eq_dec referents v = 1%nat) ->
  Permutation (yielded (get_dict_keys_dst repr key_eq d referents))
              (map key_edge d ++ map (value_edge repr) d)
  /\ value_edges_of repr d referents = map (value_edge repr) d
  /\ length (yielded (get_dict_keys_dst repr key_eq d referents))
     = (2 * length d)%nat.
Proof.
  intros Hwf Hkeys Hvalues.
  assert (Hk : key_edges_of d referents = map key_edge d).
  { apply repeat_once_map. intros e He. apply Hkeys. now apply in_map. }
  assert (Hv : value_edges_of repr d referents = map (value_edge repr) d).
  { apply repeat_once_map. intros e He. apply Hvalues. now apply in_map. }
  assert (Hp : Permutation (yielded (get_dict_keys_dst repr key_eq d referents))
                           (map key_edge d ++ map (value_edge repr) d)).
  { rewrite <- Hk, <- Hv. now apply dict_run_perm. }
  repeat split; [exact Hp | exact Hv |].
  rewrite (Permutation_length Hp), length_app, !length_map. lia.
Qed.

Lemma dict_one_value_edge_per_entry_witness :
  Permutation
    (yielded (get_dict_keys_dst short_repr eq_never [(1, 10); (2, 20)]
                                [20; 2; 10; 1]))
    [(LStr key_sentinel, 1); (LStr key_sentinel, 2);
     (LStr "<C 1>"%string, 10); (LStr "<C 2>"%string, 20)].
Proof.
  apply (dict_one_value_edge_per_entry short_repr eq_never
           [(1, 10); (2, 20)] [20; 2; 10; 1]).
  - dict_wf_by_computation.
  - intros k [<-|[<-|[]]]; reflexivity.
  - intros v [<-|[<-|[]]]; reflexivity.
Defined.

(** ** Order of the edges of a dict *)

(** C5, as stated (edges in insertion order whatever the order of the
    referents), fails: with the referents in the order [20; 10] the edge of
    the second entry comes before the edge of the first, and the run differs
    from the run with the referents in the order [10; 20]. *)
Lemma dict_edges_follow_referents_order :
  let d := [(1, 10); (2, 20)] in
  yielded (get_dict_keys_dst short_repr eq_never d [20; 10])
  = [(LStr "<C 2>"%string, 20); (LStr "<C 1>"%string, 10)]
  /\ yielded (get_dict_keys_dst short_repr eq_never d [10; 20])
     = [(LStr "<C 1>"%string, 10); (LStr "<C 2>"%string, 20)]
  /\ ~ insertion_ordered short_repr d
         (yielded (get_dict_keys_dst short_repr eq_never d [20; 10])).
Proof.
  cbv zeta. split; [reflexivity|]. split; [reflexivity|].
  intros (ps & Hsorted & Hall). cbn in Hall.
  inversion Hall as [|p0 x0 ps0 out0 (e0 & Hp0 & Hx0) Hall0]; subst.
  inversion Hall0 as [|p1 x1 ps1 out1 (e1 & Hp1 & Hx1) Hall1]; subst.
  assert (p0 = 1%nat) as ->.
  { destruct p0 as [|[|p0]]; cbn in Hp0.
    - injection Hp0 as <-. cbn in Hx0. destruct Hx0 as [H|[H|[]]]; discriminate H.
    - reflexivity.
    - now destruct p0. }
  assert (p1 = 0%nat) as ->.
  { destruct p1 as [|[|p1]]; cbn in Hp1.
    - reflexivity.
    - injection Hp1 as <-. cbn in Hx1. destruct Hx1 as [H|[H|[]]]; discriminate H.
    - now destruct p1. }
  inversion Hsorted as [|? ? _ Hle]; subst.
  inversion Hle as [|? ? Hbad _]; subst. lia.
Qed.

Lemma filter_all_edges_ordered repr (p : edge -> bool) (es : dict) : forall pre,
  exists ps : list nat,
    StronglySorted le ps
    /\ Forall (fun q => (length pre <= q)%nat) ps
    /\ Forall2 (fun q x => exists e, nth_error (pre ++ es) q = Some e
                                     /\ In x (entry_edges repr e))
               ps (filter p (all_edges repr es)).
Proof.
  induction es as [|e es IH]; intros pre.
  - exists []. repeat split; constructor.
  - destruct (IH (pre ++ [e])) as (ps & Hs & Hge & Hall).
    rewrite <- app_assoc in Hall. cbn [app] in Hall.
    rewrite length_app in Hge. cbn [length] in Hge.
    assert (Hhere : forall x, In x (entry_edges repr e) ->
              exists e', nth_error (pre ++ e :: es) (length pre) = Some e'
                         /\ In x (entry_edges repr e')).
    { intros x Hx. exists e. split; [|exact Hx].
      rewrite nth_error_app2, Nat.sub_diag by lia. reflexivity. }
    assert (Hlift : forall ps0 out0,
              StronglySorted le ps0 ->
              Forall (fun q => (length pre <= q)%nat) ps0 ->
              Forall2 (fun q x => exists e', nth_error (pre ++ e :: es) q = Some e'
                                            /\ In x (entry_edges repr e'))
                      ps0 out0 ->
              forall x, In x (entry_edges repr e) ->
              StronglySorted le (length pre :: ps0)
              /\ Forall (fun q => (length pre <= q)%nat) (length pre :: ps0)
              /\ Forall2 (fun q x => exists e', nth_error (pre ++ e :: es) q = Some e'
                                               /\ In x (entry_edges repr e'))
                         (length pre :: ps0) (x :: out0)).
    { intros ps0 out0 H1 H2 H3 x Hx. repeat split.
      - constructor; [exact H1 | exact H2].
      - constructor; [lia | exact H2].
      - constructor; [now apply Hhere | exact H3]. }
    assert (Hge' : Forall (fun q => (length pre <= q)%nat) ps).
    { eapply Forall_impl; [|exact Hge]. cbn. intros; lia. }
    cbn [all_edges flat_map entry_edges app filter].
    fold (all_edges repr es).
    destruct (p (value_edge repr e)) eqn:Ev; destruct (p (key_edge e)) eqn:Ek.
    + destruct (Hlift ps _ Hs Hge' Hall (value_edge repr e)) as (A1 & A2 & A3);
        [cbn; auto|].
      destruct (Hlift _ _ A1 A2 A3 (key_edge e)) as (B1 & B2 & B3); [cbn; auto|].
      eauto.
    + destruct (Hlift ps _ Hs Hge' Hall (value_edge repr e)) as (A1 & A2 & A3);
        [cbn; auto|].
      eauto.
    + destruct (Hlift ps _ Hs Hge' Hall (key_edge e)) as (A1 & A2 & A3);
        [cbn; auto|].
      eauto.
    + eauto.
Qed.

(** C5, amended. The edges of a dict come grouped by referent, the groups in
    the order of the referents list; the group of a referent holds the edges
    of the dict that point to it, and within a group the edges are in
    insertion order. *)
Theorem dict_edges_grouped_by_referent repr key_eq (d : dict) referents :
  dict_wf key_eq d ->
  yielded (get_dict_keys_dst repr key_eq d referents)
  = flat_map (fun r => yielded (get_dict_keys_dst repr key_eq d [r])) referents
  /\ forall r,
       yielded (get_dict_keys_dst repr key_eq d [r])
       = filter (dst_is r) (all_edges repr d)
       /\ insertion_ordered repr d (yielded (get_dict_keys_dst repr key_eq d [r])).
Proof.
  intros Hwf.
  assert (Hone : forall r, yielded (get_dict_keys_dst repr key_eq d [r])
                           = filter (dst_is r) (all_edges repr d)).
  { intros r. rewrite dict_run_wf by exact Hwf. cbn. apply app_nil_r. }
  split.
  - rewrite dict_run_wf by exact Hwf. cbn [yielded fst].
    apply flat_map_ext. intros r. now rewrite Hone.
  - intros r. split; [apply Hone|]. rewrite Hone.
    destruct (filter_all_edges_ordered repr (dst_is r) d []) as (ps & Hs & _ & Hall).
    exists ps. split; [exact Hs | exact Hall].
Qed.

Lemma dict_edges_grouped_by_referent_witness :
  yielded (get_dict_keys_dst short_repr eq_never [(1, 10); (2, 20)] [20; 10])
  = flat_map (fun r => yielded (get_dict_keys_dst short_repr eq_never
                                                  [(1, 10); (2, 20)] [r]))
             [20; 10].
Proof.
  apply (dict_edges_grouped_by_referent short_repr eq_never
           [(1, 10); (2, 20)] [20; 10]).
  dict_wf_by_computation.
Defined.

(** ** Objects with a [__dict__] *)

(** C6. For an object that is neither a list, a tuple nor a dict,
    [get_keys_dst] returns nothing at all: the branch for [__dict__] never
    returns its [results], so no labelled edge to an attribute is produced. *)
Theorem get_keys_dst_instance_returns_none repr key_eq
        (dunder_dict : option dict) referents :
  get_keys_dst repr key_eq (PyOther dunder_dict) referents = PyNone.
Proof. reflexivity. Qed.

(** An instance whose [__dict__] holds one attribute, bound to object 7. *)
Example get_keys_dst_instance_with_attribute :
  get_keys_dst short_repr eq_never (PyOther (Some [(100, 7)])) [7] = PyNone.
Proof. reflexivity. Qed.

(** ** The three branches of [find_in_tuple_or_list] *)

(** C8. On a list and on a tuple, the branch for lists, the branch for
    tuples and the generic branch (the container seen through [len] and
    indexing) give the same run. *)
Theorem find_branches_agree (obj : ref) (items : list ref) :
  find_in_tuple_or_list obj (CList items)
  = find_in_tuple_or_list obj (CSeq (as_sequence items))
  /\ find_in_tuple_or_list obj (CTuple items)
     = find_in_tuple_or_list obj (CSeq (as_sequence items))
  /\ find_in_tuple_or_list obj (CList items)
     = find_in_tuple_or_list obj (CTuple items).
Proof.
  cbn [find_in_tuple_or_list]. split; [|split].
  - symmetry. apply find_generic_as_list.
  - transitivity (find_in_list obj items).
    + apply find_in_tuple_as_list.
    + symmetry. apply find_generic_as_list.
  - symmetry. apply find_in_tuple_as_list.
Qed.

(** ** Positions of an object in a sequence *)

(** X11. Within the range of the C integer that holds the position,
    [find_in_tuple_or_list] does what its docstring says.  On a list or a
    tuple of at most 2^31 - 1 elements it runs to its end and yields a
    position i exactly when the element at i is the object itself (the
    comparison is on identity, so an element that differs from the object is
    never reported, whatever it is equal to); the positions come in strictly
    increasing order, each one once. *)
Theorem find_yields_identical_positions (obj : ref) (items : list ref) c :
  Z.of_nat (length items) <= INT_MAX ->
  c = CList items \/ c = CTuple items ->
  stopped (find_in_tuple_or_list obj c) = None
  /\ (forall i, In i (yielded (find_in_tuple_or_list obj c)) <->
                0 <= i /\ nth_error items (Z.to_nat i) = Some obj)
  /\ (forall (eqv : ref -> ref -> bool) i x,
        nth_error items (Z.to_nat i) = Some x -> eqv x obj = true -> x <> obj ->
        ~ In i (yielded (find_in_tuple_or_list obj c)))
  /\ StronglySorted Z.lt (yielded (find_in_tuple_or_list obj c))
  /\ NoDup (yielded (find_in_tuple_or_list obj c)).
Proof.
  intros Hfit Hc.
  assert (Hrun : find_in_tuple_or_list obj c
                 = (flat_map (hit obj (index_checked items))
                             (c_range (Z.of_nat (length items))), None)).
  { assert (Hpos : positions_read (Z.of_nat (length items))
                    = c_range (Z.of_nat (length items)))
      by (unfold positions_read; f_equal; lia).
    assert (Hend : end_of_run (Z.of_nat (length items)) = None).
    { unfold end_of_run. destruct (Z.ltb_spec INT_MAX (Z.of_nat (length items)));
        [lia | reflexivity]. }
    destruct Hc as [-> | ->]; cbn [find_in_tuple_or_list];
      rewrite ?find_in_tuple_as_list, find_in_list_run, Hpos, Hend;
      reflexivity. }
  rewrite Hrun. cbn [yielded stopped fst snd].
  assert (Hsorted : StronglySorted Z.lt
            (flat_map (hit obj (index_checked items))
                      (c_range (Z.of_nat (length items)))))
    by apply hit_sorted, c_range_sorted.
  assert (Hiff : forall i,
            In i (flat_map (hit obj (index_checked items))
                           (c_range (Z.of_nat (length items)))) <->
            0 <= i /\ nth_error items (Z.to_nat i) = Some obj);
    [|split; [reflexivity|]; split; [exact Hiff|]; split;
      [|split; auto using StronglySorted_lt_NoDup]].
  2:{ intros eqv i x Hnth _ Hne Hin. apply Hiff in Hin.
      destruct Hin as [_ Hin]. congruence. }
  intros i. rewrite in_flat_map. split.
  - intros (j & Hj & Hi). apply in_c_range in Hj. unfold hit in Hi.
    destruct (index_checked_inside items j Hj) as [Hidx [x Hx]].
    rewrite Hidx, Hx in Hi. unfold is_ in Hi.
    destruct (Z.eqb_spec x obj) as [Heq|_]; [|easy].
    destruct Hi as [<-|[]]. split; [lia|]. now rewrite Hx, Heq.
  - intros [Hi Hnth]. exists i.
    assert (Hlt : (Z.to_nat i < length items)%nat)
      by (apply nth_error_Some; congruence).
    split; [apply in_c_range; lia|].
    unfold hit. destruct (index_checked_inside items i) as [-> _]; [lia|].
    rewrite Hnth. unfold is_. rewrite Z.eqb_refl. now left.
Qed.

Lemma find_yields_identical_positions_witness :
  Z.of_nat (length [105; 7; 5; 5]) <= INT_MAX
  /\ eq_mod100 105 5 = true
  /\ yielded (find_in_tuple_or_list 5 (CList [105; 7; 5; 5])) = [2; 3]
  /\ ~ In 0 (yielded (find_in_tuple_or_list 5 (CList [105; 7; 5; 5])))
  /\ NoDup (yielded (find_in_tuple_or_list 5 (CList [105; 7; 5; 5]))).
Proof.
  assert (Hfit : Z.of_nat (length [105; 7; 5; 5]) <= INT_MAX)
    by (unfold INT_MAX; cbn; lia).
  split; [exact Hfit|]. split; [reflexivity|]. split; [reflexivity|].
  destruct (find_yields_identical_positions 5 [105; 7; 5; 5]
              (CList [105; 7; 5; 5]) Hfit (or_introl eq_refl))
    as (_ & _ & Hid & _ & Hnd).
  split; [|exact Hnd].
  apply (Hid eq_mod100 0 105); [reflexivity | reflexivity | lia].
Defined.

(** ** Multiplicity of the edges of a dict *)

Lemma repeat_twice_not_NoDup {A} (x : A) n : (1 < n)%nat -> ~ NoDup (repeat x n).
Proof.
  destruct n as [|[|n]]; [lia | lia |]. intros _ Hnd. cbn in Hnd.
  inversion Hnd as [|? ? Hnotin _]. apply Hnotin. now left.
Qed.

Lemma NoDup_app_parts {A} (l l' : list A) : NoDup (l ++ l') -> NoDup l /\ NoDup l'.
Proof.
  induction l as [|x l IH]; cbn; intros H.
  - split; [constructor | exact H].
  - inversion H as [|? ? Hnotin Hrest]; subst.
    destruct (IH Hrest) as [Hl Hl']. split; [|exact Hl'].
    constructor; [|exact Hl]. intros Hin. apply Hnotin, in_or_app. now left.
Qed.

(** C10. The run of [get_dict_keys_dst] depends on how often an object
    occurs among the referents: an object that occurs n times there and is
    the value of m entries gets n * m value edges (and n more '<key>' edges
    when it is also a key), so that edges are repeated as soon as n > 1. *)
Theorem dict_edges_multiplicity repr key_eq (d : dict) referents (o : ref) :
  dict_wf key_eq d ->
  let out := yielded (get_dict_keys_dst repr key_eq d referents) in
  let n := count_occ Z.eq_dec referents o in
  let m := entries_with_value o d in
  Permutation out (key_edges_of d referents ++ value_edges_of repr d referents)
  /\ count_dst o (value_edges_of repr d referents) = (n * m)%nat
  /\ count_dst o out = (n * entries_with_key o d + n * m)%nat
  /\ ((1 < n)%nat -> (0 < m)%nat -> ~ NoDup out).
Proof.
  intros Hwf out n m.
  assert (Hp : Permutation out (key_edges_of d referents
                                ++ value_edges_of repr d referents))
    by now apply dict_run_perm.
  split; [exact Hp|]. split; [apply count_dst_value_edges|]. split.
  - unfold count_dst. rewrite (filter_length_perm (dst_is o) _ _ Hp).
    fold (count_dst o (key_edges_of d referents
                       ++ value_edges_of repr d referents)).
    now rewrite count_dst_app, count_dst_key_edges, count_dst_value_edges.
  - intros Hn Hm Hnd.
    apply (Permutation_NoDup Hp), NoDup_app_parts in Hnd.
    destruct Hnd as [_ Hnd].
    unfold m, entries_with_value in Hm.
    destruct (filter (fun e => is_ (snd e) o) d) as [|e rest] eqn:Ef;
      [cbn in Hm; lia|].
    assert (He : In e (filter (fun e => is_ (snd e) o) d))
      by (rewrite Ef; now left).
    apply filter_In in He. destruct He as [He Heq].
    unfold is_ in Heq. apply Z.eqb_eq in Heq.
    destruct (in_split _ _ He) as (d1 & d2 & ->).
    unfold value_edges_of in Hnd. rewrite flat_map_app in Hnd.
    cbn [flat_map] in Hnd.
    apply NoDup_app_parts in Hnd. destruct Hnd as [_ Hnd].
    apply NoDup_app_parts in Hnd. destruct Hnd as [Hnd _].
    rewrite Heq in Hnd. now apply repeat_twice_not_NoDup in Hnd.
Qed.

Lemma dict_edges_multiplicity_witness :
  dict_wf eq_never [(1, 10); (2, 10)]
  /\ count_dst 10 (yielded (get_dict_keys_dst short_repr eq_never
                                              [(1, 10); (2, 10)] [10; 10]))
     = 4%nat
  /\ ~ NoDup (yielded (get_dict_keys_dst short_repr eq_never
                                         [(1, 10); (2, 10)] [10; 10])).
Proof.
  assert (Hwf : dict_wf eq_never [(1, 10); (2, 10)])
    by dict_wf_by_computation.
  split; [exact Hwf|].
  destruct (dict_edges_multiplicity short_repr eq_never
              [(1, 10); (2, 10)] [10; 10] 10 Hwf) as (_ & _ & Hcount & Hdup).
  split.
  - exact Hcount.
  - apply Hdup; cbn; lia.
Defined.

(** * Further properties *)

(** ** Runs that stop *)

Lemma for_app {X A} (xs ys : list X) (body : X -> gen A) :
  for_ (xs ++ ys) body = for_ xs body ;; for_ ys body.
Proof.
  induction xs as [|x xs IH]; cbn [app for_].
  - unfold seq_, skip. cbn. now destruct (for_ ys body).
  - rewrite IH. unfold seq_.
    destruct (body x) as [l1 [s1|]]; cbn [fst snd]; [reflexivity|].
    destruct (for_ xs body) as [l2 [s2|]]; cbn [fst snd]; [reflexivity|].
    now rewrite app_assoc.
Qed.

Lemma for_stops {X A} (xs ys : list X) x (body : X -> gen A) s :
  (forall y, In y xs -> stopped (body y) = None) ->
  stopped (body x) = Some s ->
  for_ (xs ++ x :: ys) body
  = (flat_map (fun y => yielded (body y)) xs ++ yielded (body x), Some s).
Proof.
  intros Hok Hstop. rewrite for_app, for_pure by exact Hok.
  cbn [for_]. unfold stopped in Hstop. unfold yielded at 2.
  destruct (body x) as [l o]. cbn [fst snd] in *. subst o.
  reflexivity.
Qed.

Lemma c_range_split p n :
  0 <= p < n -> exists rest, c_range n = c_range p ++ p :: rest.
Proof.
  intros H. unfold c_range.
  replace (Z.to_nat n) with (Z.to_nat p + S (Z.to_nat n - Z.to_nat p - 1))%nat
    by lia.
  rewrite seq_app, map_app. cbn [seq map Nat.add].
  rewrite Z2Nat.id by lia. eauto.
Qed.

(** ** Positions as a recursion over the items *)

Lemma flat_map_ext_in {A B} (f g : A -> list B) l :
  (forall x, In x l -> f x = g x) -> flat_map f l = flat_map g l.
Proof.
  induction l as [|x l IH]; intros H; [reflexivity|].
  cbn. rewrite (H x (or_introl eq_refl)), IH; [reflexivity|].
  intros y Hy. apply H. now right.
Qed.

Lemma positions_from_seq obj items : forall a,
  flat_map (fun k => match nth_error items (k - a) with
                     | Some x => if is_ x obj then [Z.of_nat k] else []
                     | None => []
                     end) (seq a (length items))
  = positions_from obj (Z.of_nat a) items.
Proof.
  induction items as [|x rest IH]; intros a; [reflexivity|].
  cbn [length seq flat_map positions_from]. rewrite Nat.sub_diag. cbn [nth_error].
  f_equal. replace (Z.of_nat a + 1) with (Z.of_nat (S a)) by lia.
  rewrite <- IH. apply flat_map_ext_in. intros k Hk. apply in_seq in Hk.
  replace (k - a)%nat with (S (k - S a)) by lia. reflexivity.
Qed.

Lemma hits_as_positions obj (items : list ref) :
  flat_map (hit obj (index_checked items)) (c_range (Z.of_nat (length items)))
  = positions_from obj 0 items.
Proof.
  etransitivity; [|exact (positions_from_seq obj items 0)]. unfold c_range.
  rewrite Nat2Z.id, flat_map_concat_map, map_map, <- flat_map_concat_map.
  apply flat_map_ext_in. intros k Hk. apply in_seq in Hk. unfold hit.
  destruct (index_checked_inside items (Z.of_nat k)) as [-> _]; [lia|].
  now rewrite Nat2Z.id, Nat.sub_0_r.
Qed.

(** The run on a list or a tuple whose length fits a C integer. *)
Lemma find_run_fits obj (items : list ref) c :
  Z.of_nat (length items) <= INT_MAX ->
  c = CList items \/ c = CTuple items ->
  find_in_tuple_or_list obj c = (positions_from obj 0 items, None).
Proof.
  intros Hfit Hc.
  assert (Hpos : positions_read (Z.of_nat (length items))
                 = c_range (Z.of_nat (length items)))
    by (unfold positions_read; f_equal; lia).
  assert (Hend : end_of_run (Z.of_nat (length items)) = None).
  { unfold end_of_run. destruct (Z.ltb_spec INT_MAX (Z.of_nat (length items)));
      [lia | reflexivity]. }
  destruct Hc as [-> | ->]; cbn [find_in_tuple_or_list];
    rewrite ?find_in_tuple_as_list, find_in_list_run, Hpos, Hend,
      hits_as_positions; reflexivity.
Qed.

Lemma positions_from_length obj items : forall start,
  length (positions_from obj start items) = count_occ Z.eq_dec items obj.
Proof.
  induction items as [|x rest IH]; intros start; [reflexivity|].
  cbn [positions_from count_occ]. rewrite length_app, IH. unfold is_.
  destruct (Z.eq_dec x obj) as [->|Hne].
  - now rewrite Z.eqb_refl.
  - case_eqb; [contradiction | reflexivity].
Qed.

Lemma positions_from_shift obj items : forall start k,
  positions_from obj (start + k) items
  = map (fun i => i + k) (positions_from obj start items).
Proof.
  induction items as [|x rest IH]; intros start k; [reflexivity|].
  cbn [positions_from]. rewrite map_app.
  replace (start + k + 1) with (start + 1 + k) by lia. rewrite IH.
  now destruct (is_ x obj).
Qed.

Lemma positions_from_app obj l1 : forall l2 start,
  positions_from obj start (l1 ++ l2)
  = positions_from obj start l1
    ++ positions_from obj (start + Z.of_nat (length l1)) l2.
Proof.
  induction l1 as [|x rest IH]; intros l2 start.
  - cbn. now rewrite Z.add_0_r.
  - cbn [app positions_from length]. rewrite IH, <- app_assoc.
    do 3 f_equal. lia.
Qed.

(** X1. On a list or a tuple whose length fits a C integer,
    [find_in_tuple_or_list] yields as many positions as the object occurs in
    the container, and none exactly when the object is not in it. *)
Theorem find_yields_one_position_per_occurrence
        (obj : ref) (items : list ref) c :
  Z.of_nat (length items) <= INT_MAX ->
  c = CList items \/ c = CTuple items ->
  length (yielded (find_in_tuple_or_list obj c)) = count_occ Z.eq_dec items obj
  /\ (yielded (find_in_tuple_or_list obj c) = [] <-> ~ In obj items).
Proof.
  intros Hfit Hc. rewrite (find_run_fits obj items c Hfit Hc).
  cbn [yielded fst].
  pose proof (positions_from_length obj items 0) as Hlen.
  split; [exact Hlen|]. rewrite (count_occ_not_In Z.eq_dec), <- Hlen.
  destruct (positions_from obj 0 items); cbn; split; congruence.
Qed.

Lemma find_yields_one_position_per_occurrence_witness :
  Z.of_nat (length [5; 7; 5]) <= INT_MAX
  /\ length (yielded (find_in_tuple_or_list 5 (CTuple [5; 7; 5]))) = 2%nat.
Proof.
  assert (Hfit : Z.of_nat (length [5; 7; 5]) <= INT_MAX)
    by (unfold INT_MAX; cbn; lia).
  split; [exact Hfit|].
  apply (find_yields_one_position_per_occurrence 5 [5; 7; 5] (CTuple [5; 7; 5])
           Hfit (or_intror eq_refl)).
Defined.

(** X2. The positions found in a concatenation are the positions found in
    the first part followed by the positions found in the second part moved
    up by the length of the first part (lengths within the C integers). *)
Theorem find_in_concatenation (obj : ref) (l1 l2 : list ref) :
  Z.of_nat (length (l1 ++ l2)) <= INT_MAX ->
  yielded (find_in_tuple_or_list obj (CList (l1 ++ l2)))
  = yielded (find_in_tuple_or_list obj (CList l1))
    ++ map (fun i => i + Z.of_nat (length l1))
           (yielded (find_in_tuple_or_list obj (CList l2))).
Proof.
  intros Hfit. rewrite length_app in Hfit.
  rewrite (find_run_fits obj (l1 ++ l2) (CList (l1 ++ l2)));
    [|rewrite length_app; lia | now left].
  rewrite (find_run_fits obj l1 (CList l1)); [|lia | now left].
  rewrite (find_run_fits obj l2 (CList l2)); [|lia | now left].
  cbn [yielded fst].
  now rewrite positions_from_app, <- positions_from_shift.
Qed.

Lemma find_in_concatenation_witness :
  yielded (find_in_tuple_or_list 5 (CList ([5; 7] ++ [7; 5])))
  = yielded (find_in_tuple_or_list 5 (CList [5; 7]))
    ++ map (fun i => i + Z.of_nat (length [5; 7]))
           (yielded (find_in_tuple_or_list 5 (CList [7; 5]))).
Proof.
  apply (find_in_concatenation 5 [5; 7] [7; 5]).
  unfold INT_MAX; cbn; lia.
Defined.

(** ** Containers that are neither lists nor tuples *)

Lemma body_as_hit obj (getitem : Z -> option ref) (error : Z -> exn) i :
  yielded (match getitem i with
           | None => raise (error i)
           | Some x => if is_ x obj then yield i else skip
           end)
  = hit obj getitem i.
Proof.
  unfold hit. destruct (getitem i) as [x|]; [|reflexivity].
  now destruct (is_ x obj).
Qed.

Lemma in_hits obj (getitem : Z -> option ref) xs i :
  In i (flat_map (hit obj getitem) xs) <-> In i xs /\ getitem i = Some obj.
Proof.
  rewrite in_flat_map. unfold hit, is_. split.
  - intros (j & Hj & Hi). destruct (getitem j) as [x|] eqn:E; [|easy].
    destruct (Z.eqb_spec x obj) as [Heq|_]; [|easy].
    destruct Hi as [<-|[]]. split; [exact Hj | now rewrite E, Heq].
  - intros [Hi Hget]. exists i. split; [exact Hi|].
    rewrite Hget, Z.eqb_refl. now left.
Qed.

(** X3. The generic branch on a container whose length fits a C integer and
    whose items can all be read: the run ends normally and yields, in
    strictly increasing order, exactly the positions below the length whose
    item is the object itself. *)
Theorem find_generic_positions (obj : ref) (c : pyseq) :
  sq_len c <= INT_MAX ->
  (forall i, 0 <= i < sq_len c -> exists x, sq_getitem c i = Some x) ->
  stopped (find_in_tuple_or_list obj (CSeq c)) = None
  /\ (forall i, In i (yielded (find_in_tuple_or_list obj (CSeq c))) <->
                0 <= i < sq_len c /\ sq_getitem c i = Some obj)
  /\ StronglySorted Z.lt (yielded (find_in_tuple_or_list obj (CSeq c))).
Proof.
  intros Hfit Hread. cbn [find_in_tuple_or_list]. unfold find_generic.
  rewrite c_for_run.
  - rewrite (flat_map_ext _ _ (body_as_hit obj (sq_getitem c) (sq_error c))).
    cbn [yielded stopped fst snd].
    assert (Hpos : positions_read (sq_len c) = c_range (sq_len c)).
    { unfold positions_read. f_equal. lia. }
    rewrite Hpos. split; [|split].
    + unfold end_of_run. destruct (Z.ltb_spec INT_MAX (sq_len c));
        [lia | reflexivity].
    + intros i. now rewrite in_hits, in_c_range.
    + apply hit_sorted, c_range_sorted.
  - intros i Hi. destruct (Hread i Hi) as [x ->]. now destruct (is_ x obj).
Qed.

Lemma find_generic_positions_witness :
  sq_len alternating <= INT_MAX
  /\ yielded (find_in_tuple_or_list 1 (CSeq alternating)) = [1; 3]
  /\ StronglySorted Z.lt (yielded (find_in_tuple_or_list 1 (CSeq alternating))).
Proof.
  assert (Hfit : sq_len alternating <= INT_MAX) by (unfold INT_MAX; cbn; lia).
  split; [exact Hfit|]. split; [reflexivity|].
  apply (find_generic_positions 1 alternating Hfit).
  intros i _. cbn. eauto.
Defined.

(** X4. The generic branch on a container whose read at position p raises
    after every item before it was given: the run stops at p with the very
    exception that [container[p]] raised, having yielded exactly the
    positions before p whose item is the object; no position from p on is
    reported. *)
Theorem find_generic_stops_at_first_failure (obj : ref) (c : pyseq) (p : Z) :
  0 <= p < sq_len c -> p <= INT_MAX ->
  (forall i, 0 <= i < p -> exists x, sq_getitem c i = Some x) ->
  sq_getitem c p = None ->
  stopped (find_in_tuple_or_list obj (CSeq c)) = Some (Raised (sq_error c p))
  /\ (forall i, In i (yielded (find_in_tuple_or_list obj (CSeq c))) <->
                0 <= i < p /\ sq_getitem c i = Some obj).
Proof.
  intros Hp Hint Hread Hfail. cbn [find_in_tuple_or_list].
  unfold find_generic, c_for.
  destruct (c_range_split p (Z.min (sq_len c) (INT_MAX + 1))) as [rest ->];
    [lia|].
  rewrite (for_stops (c_range p) rest p _ (Raised (sq_error c p))).
  - unfold seq_. cbn [fst snd yielded stopped].
    rewrite Hfail. cbn [raise fst]. rewrite app_nil_r.
    split; [reflexivity|].
    intros i.
    rewrite (flat_map_ext _ _ (body_as_hit obj (sq_getitem c) (sq_error c))).
    now rewrite in_hits, in_c_range.
  - intros i Hi. apply in_c_range in Hi.
    destruct (Hread i Hi) as [x ->]. now destruct (is_ x obj).
  - now rewrite Hfail.
Qed.

Lemma find_generic_stops_at_first_failure_witness :
  stopped (find_in_tuple_or_list 7 (CSeq overstated)) = Some (Raised KeyError)
  /\ yielded (find_in_tuple_or_list 7 (CSeq overstated)) = [0; 1].
Proof.
  split; [|reflexivity].
  apply (find_generic_stops_at_first_failure 7 overstated 2).
  - cbn; lia.
  - unfold INT_MAX; lia.
  - intros i Hi. exists 7. cbn.
    destruct (Z.ltb_spec i 2); [reflexivity | lia].
  - reflexivity.
Defined.

(** ** Lists and tuples: positions and edges *)

Lemma enumerate_from_hits obj items : forall start,
  map fst (filter (dst_is obj) (enumerate_from start items))
  = map LInt (positions_from obj start items).
Proof.
  induction items as [|x rest IH]; intros start; [reflexivity|].
  cbn [enumerate_from filter positions_from]. unfold dst_is at 1. cbn [snd].
  rewrite map_app, <- IH. now destruct (is_ x obj).
Qed.

(** X5. On a list or a tuple whose length fits a C integer, the positions
    that [find_in_tuple_or_list] yields for an object are, in the same order,
    the labels of the edges of [get_keys_dst] that point to that object. *)
Theorem find_agrees_with_edges
        repr key_eq (obj : ref) (items : list ref) referents :
  Z.of_nat (length items) <= INT_MAX ->
  map LInt (yielded (find_in_tuple_or_list obj (CList items)))
  = map fst (filter (dst_is obj)
                    (edges_of (get_keys_dst repr key_eq (PyList items) referents)))
  /\ map LInt (yielded (find_in_tuple_or_list obj (CTuple items)))
     = map fst (filter (dst_is obj)
                       (edges_of (get_keys_dst repr key_eq (PyTuple items)
                                               referents))).
Proof.
  intros Hfit.
  rewrite (find_run_fits obj items (CList items) Hfit (or_introl eq_refl)).
  rewrite (find_run_fits obj items (CTuple items) Hfit (or_intror eq_refl)).
  cbn [get_keys_dst edges_of enumerate yielded fst].
  now rewrite enumerate_from_hits.
Qed.

Lemma find_agrees_with_edges_witness :
  map LInt (yielded (find_in_tuple_or_list 5 (CList [5; 7; 5])))
  = map fst (filter (dst_is 5)
                    (edges_of (get_keys_dst short_repr eq_never
                                            (PyList [5; 7; 5]) []))).
Proof.
  apply (find_agrees_with_edges short_repr eq_never 5 [5; 7; 5] []).
  unfold INT_MAX; cbn; lia.
Defined.

Lemma enumerate_from_items items : forall start,
  map snd (enumerate_from start items) = items.
Proof.
  induction items as [|x rest IH]; intros start; cbn; [reflexivity|].
  now rewrite IH.
Qed.

Lemma enumerate_from_labels items : forall a,
  map fst (enumerate_from (Z.of_nat a) items)
  = map LInt (map Z.of_nat (seq a (length items))).
Proof.
  induction items as [|x rest IH]; intros a; cbn; [reflexivity|].
  f_equal. replace (Z.of_nat a + 1) with (Z.of_nat (S a)) by lia. apply IH.
Qed.

Lemma NoDup_map_injective {A B} (f : A -> B) l :
  (forall x y, f x = f y -> x = y) -> NoDup l -> NoDup (map f l).
Proof.
  intros Hinj. induction 1 as [|x l Hx _ IH]; cbn; constructor; [|exact IH].
  intros Hin. apply in_map_iff in Hin. destruct Hin as (y & Hy & Hin).
  apply Hinj in Hy. now subst y.
Qed.

(** X6. The edges of a list or a tuple give the container back: their
    destinations, in order, are its items and their labels are the positions
    0, 1, ..., len - 1; no edge occurs twice, even when the same object
    occurs at several positions. *)
Theorem sequence_edges_round_trip repr key_eq (items : list ref) referents :
  map snd (edges_of (get_keys_dst repr key_eq (PyList items) referents)) = items
  /\ map fst (edges_of (get_keys_dst repr key_eq (PyList items) referents))
     = map LInt (c_range (Z.of_nat (length items)))
  /\ NoDup (edges_of (get_keys_dst repr key_eq (PyList items) referents))
  /\ edges_of (get_keys_dst repr key_eq (PyTuple items) referents)
     = edges_of (get_keys_dst repr key_eq (PyList items) referents).
Proof.
  cbn [get_keys_dst edges_of enumerate yielded fst].
  assert (Hlabels : map fst (enumerate_from 0 items)
                    = map LInt (c_range (Z.of_nat (length items)))).
  { unfold c_range. rewrite Nat2Z.id. exact (enumerate_from_labels items 0). }
  split; [apply enumerate_from_items|]. split; [exact Hlabels|].
  split; [|reflexivity].
  apply (NoDup_map_inv fst). rewrite Hlabels.
  apply NoDup_map_injective; [intros x y H; now injection H|].
  apply StronglySorted_lt_NoDup, c_range_sorted.
Qed.

(** ** Dicts: which referents get edges *)

Lemma in_existsb_is r l : existsb (is_ r) l = true <-> In r l.
Proof.
  rewrite existsb_exists. unfold is_. split.
  - intros (x & Hx & Heq). apply Z.eqb_eq in Heq. now subst x.
  - intros H. exists r. split; [exact H | apply Z.eqb_refl].
Qed.

Lemma key_or_value_spec d r :
  key_or_value d r = true <-> In r (dict_keys d) \/ In r (dict_values d).
Proof.
  unfold key_or_value. now rewrite orb_true_iff, !in_existsb_is.
Qed.

Lemma getitem_is_value key_eq d key v :
  dict_getitem key_eq d key = Some v -> In v (dict_values d).
Proof.
  unfold dict_getitem. destruct (find _ d) as [e|] eqn:E; [|discriminate].
  intros [= <-]. apply find_some in E. now apply in_map.
Qed.

Lemma in_step_edges repr key_eq d r key lbl dst :
  In (lbl, dst) (step_edges repr key_eq d r key) ->
  dst = r
  /\ ((lbl = LStr key_sentinel /\ r = key)
      \/ (lbl = LStr (repr key) /\ dict_getitem key_eq d key = Some r)).
Proof.
  unfold step_edges, is_. intros Hin. apply in_app_or in Hin.
  destruct Hin as [Hin|Hin].
  - destruct (Z.eqb_spec r key) as [Heq|_]; [|easy].
    destruct Hin as [[= <- <-]|[]]. auto.
  - destruct (dict_getitem key_eq d key) as [v|]; [|easy].
    destruct (Z.eqb_spec v r) as [Heq|_]; [|easy].
    destruct Hin as [[= <- <-]|[]]. subst v. auto.
Qed.

Lemma step_edges_unrelated repr key_eq d r key :
  key_or_value d r = false -> In key (dict_keys d) ->
  step_edges repr key_eq d r key = [].
Proof.
  intros Hno Hkey.
  destruct (step_edges repr key_eq d r key) as [|[lbl dst] rest] eqn:E;
    [reflexivity|].
  exfalso.
  assert (Hin : In (lbl, dst) (step_edges repr key_eq d r key))
    by (rewrite E; now left).
  apply in_step_edges in Hin. destruct Hin as [_ [[_ ->]|[_ Hget]]].
  - assert (key_or_value d key = true) by (apply key_or_value_spec; auto).
    congruence.
  - apply getitem_is_value in Hget.
    assert (key_or_value d r = true) by (apply key_or_value_spec; auto).
    congruence.
Qed.

Lemma flat_map_all_nil {A B} (f : A -> list B) l :
  (forall x, In x l -> f x = []) -> flat_map f l = [].
Proof.
  induction l as [|x l IH]; intros H; [reflexivity|].
  cbn. rewrite (H x (or_introl eq_refl)), IH; [reflexivity|].
  intros y Hy. apply H. now right.
Qed.

Lemma flat_map_filter_relevant {A B} (p : A -> bool) (f : A -> list B) l :
  (forall x, p x = false -> f x = []) ->
  flat_map f l = flat_map f (filter p l).
Proof.
  intros H. induction l as [|x l IH]; [reflexivity|].
  cbn. destruct (p x) eqn:E; cbn; rewrite IH; [reflexivity|].
  now rewrite (H x E).
Qed.

(** X7. Every edge that [get_dict_keys_dst] emits points to one of the
    referents it was given, and that referent is, by identity, a key or a
    value of the dict; its label is the sentinel or the representation of a
    key of the dict.  This holds for every dict and every key equality. *)
Theorem dict_edges_point_to_referents
        repr key_eq (d : dict) referents (lbl : label) (dst : ref) :
  In (lbl, dst) (yielded (get_dict_keys_dst repr key_eq d referents)) ->
  In dst referents
  /\ (In dst (dict_keys d) \/ In dst (dict_values d))
  /\ (lbl = LStr key_sentinel
      \/ exists k, In k (dict_keys d) /\ lbl = LStr (repr k)).
Proof.
  rewrite dict_run. cbn [yielded fst]. intros Hin.
  apply in_flat_map in Hin. destruct Hin as (r & Hr & Hin).
  apply in_flat_map in Hin. destruct Hin as (key & Hkey & Hin).
  apply in_step_edges in Hin. destruct Hin as [-> [[-> ->]|[-> Hget]]].
  - split; [exact Hr|]. split; [left; exact Hkey | left; reflexivity].
  - apply getitem_is_value in Hget. split; [exact Hr|].
    split; [right; exact Hget|]. right. now exists key.
Qed.

Lemma dict_edges_point_to_referents_witness :
  In (LStr "<C 1>"%string, 10)
     (yielded (get_dict_keys_dst short_repr eq_never [(1, 10)] [10; 99]))
  /\ In 10 [10; 99].
Proof.
  assert (Hin : In (LStr "<C 1>"%string, 10)
                   (yielded (get_dict_keys_dst short_repr eq_never
                                               [(1, 10)] [10; 99])))
    by (cbn; auto).
  split; [exact Hin|].
  apply (dict_edges_point_to_referents short_repr eq_never
           [(1, 10)] [10; 99] (LStr "<C 1>"%string) 10 Hin).
Defined.

(** X8. On a dict whose keys are pairwise distinct, a referent is the
    destination of some emitted edge exactly when it is, by identity, a key
    or a value of the dict; so the run is empty exactly when no referent is
    a key or a value. *)
Theorem dict_referent_has_edge_iff_key_or_value
        repr key_eq (d : dict) referents :
  dict_wf key_eq d ->
  (forall r, In r referents ->
     ((exists lbl, In (lbl, r)
                      (yielded (get_dict_keys_dst repr key_eq d referents)))
      <-> key_or_value d r = true))
  /\ (yielded (get_dict_keys_dst repr key_eq d referents) = []
      <-> forall r, In r referents -> key_or_value d r = false).
Proof.
  intros Hwf.
  assert (Hedge : forall r, In r referents ->
            ((exists lbl, In (lbl, r)
                (yielded (get_dict_keys_dst repr key_eq d referents)))
             <-> key_or_value d r = true)).
  { intros r Hr. rewrite key_or_value_spec. split.
    - intros [lbl Hin]. now apply dict_edges_point_to_referents in Hin.
    - intros [Hk|Hv].
      + apply in_map_iff in Hk. destruct Hk as ([k v] & <- & He).
        exists (LStr key_sentinel). apply in_dict_run_wf; [exact Hwf|].
        split; [exact Hr|]. apply (in_all_edges repr d (k, v) He).
      + apply in_map_iff in Hv. destruct Hv as ([k v] & <- & He).
        exists (LStr (repr k)). apply in_dict_run_wf; [exact Hwf|].
        split; [exact Hr|]. apply (in_all_edges repr d (k, v) He). }
  split; [exact Hedge|]. split.
  - intros Hnil r Hr. destruct (key_or_value d r) eqn:E; [|reflexivity].
    apply (Hedge r Hr) in E. destruct E as [lbl Hin].
    rewrite Hnil in Hin. destruct Hin.
  - intros Hnone.
    destruct (yielded (get_dict_keys_dst repr key_eq d referents))
      as [|[lbl dst] rest] eqn:E; [reflexivity|]. exfalso.
    assert (Hin : In (lbl, dst)
                     (yielded (get_dict_keys_dst repr key_eq d referents)))
      by (rewrite E; now left).
    pose proof (dict_edges_point_to_referents _ _ _ _ _ _ Hin) as (Hr & Hkv & _).
    apply key_or_value_spec in Hkv. rewrite (Hnone dst Hr) in Hkv.
    discriminate.
Qed.

Lemma dict_referent_has_edge_iff_key_or_value_witness :
  dict_wf eq_never [(1, 10); (2, 20)]
  /\ yielded (get_dict_keys_dst short_repr eq_never [(1, 10); (2, 20)] [98; 99])
     = [].
Proof.
  assert (Hwf : dict_wf eq_never [(1, 10); (2, 20)])
    by dict_wf_by_computation.
  split; [exact Hwf|].
  apply (dict_referent_has_edge_iff_key_or_value short_repr eq_never
           [(1, 10); (2, 20)] [98; 99] Hwf).
  intros r [<-|[<-|[]]]; reflexivity.
Defined.

(** X9. Referents that are neither a key nor a value of the dict do not
    change the run of [get_dict_keys_dst]: the run is the run on the
    referents that are a key or a value, whatever the dict and the key
    equality are. *)
Theorem dict_run_ignores_unrelated_referents
        repr key_eq (d : dict) referents :
  get_dict_keys_dst repr key_eq d referents
  = get_dict_keys_dst repr key_eq d (filter (key_or_value d) referents).
Proof.
  rewrite !dict_run. apply (f_equal (fun l => (l, @None stop))).
  apply flat_map_filter_relevant. intros r Hr.
  apply flat_map_all_nil. intros key Hkey.
  now apply step_edges_unrelated.
Qed.

(** X10. Reordering the referents reorders the edges but neither adds nor
    drops one: the runs on two permutations of the referents are
    permutations of each other, for every dict and every key equality. *)
Theorem dict_edges_permute_with_referents
        repr key_eq (d : dict) referents referents' :
  Permutation referents referents' ->
  Permutation (yielded (get_dict_keys_dst repr key_eq d referents))
              (yielded (get_dict_keys_dst repr key_eq d referents')).
Proof.
  intros Hp. rewrite !dict_run. cbn [yielded fst]. now rewrite Hp.
Qed.

Lemma dict_edges_permute_with_referents_witness :
  Permutation
    (yielded (get_dict_keys_dst short_repr eq_never [(1, 10); (2, 20)] [20; 10]))
    (yielded (get_dict_keys_dst short_repr eq_never [(1, 10); (2, 20)] [10; 20])).
Proof.
  apply (dict_edges_permute_with_referents short_repr eq_never
           [(1, 10); (2, 20)] [20; 10] [10; 20]).
  apply perm_swap.
Defined.

(** ** The position counter beyond the range of a C integer *)

Lemma wrap_int_range z : - 2 ^ 31 <= wrap_int z <= INT_MAX.
Proof.
  unfold wrap_int, INT_MAX.
  pose proof (Z.mod_pos_bound (z + 2 ^ 31) (2 ^ 32)). lia.
Qed.

Lemma wrap_int_small z : - 2 ^ 31 <= z <= INT_MAX -> wrap_int z = z.
Proof.
  unfold wrap_int, INT_MAX. intros H. rewrite Z.mod_small by lia. lia.
Qed.

Lemma wrap_int_add a b : wrap_int (wrap_int a + b) = wrap_int (a + b).
Proof.
  unfold wrap_int. f_equal.
  replace ((a + 2 ^ 31) mod 2 ^ 32 - 2 ^ 31 + b + 2 ^ 31)
    with ((a + 2 ^ 31) mod 2 ^ 32 + b) by lia.
  rewrite Zplus_mod_idemp_l. f_equal. lia.
Qed.

Lemma flat_map_after_map {A B C} (f : B -> list C) (g : A -> B) l :
  flat_map f (map g l) = flat_map (fun x => f (g x)) l.
Proof. induction l as [|x l IH]; cbn; [reflexivity | now rewrite IH]. Qed.

Lemma seq_skip {A} (g : gen A) : g ;; skip = g.
Proof.
  unfold seq_, skip. destruct g as [l [s|]]; cbn; [reflexivity|].
  now rewrite app_nil_r.
Qed.

(** Within the range of the counter the built loop ends after [n]
    iterations. *)
Lemma c_loop_within {A} (body : Z -> gen A) n : forall steps t,
  n <= INT_MAX -> 0 <= t -> Z.of_nat steps = n - t ->
  c_loop steps n t body
  = (for_ (map Z.of_nat (seq (Z.to_nat t) steps)) body, true).
Proof.
  induction steps as [|k IH]; intros t Hn Ht Hsteps.
  - cbn. destruct (Z.ltb_spec t n); [lia | reflexivity].
  - cbn [c_loop seq map for_]. destruct (Z.ltb_spec t n); [|lia].
    rewrite wrap_int_small by (unfold INT_MAX in *; lia).
    rewrite IH by lia. cbn [fst snd].
    rewrite Z2Nat.id by lia.
    replace (Z.to_nat (t + 1)) with (S (Z.to_nat t)) by lia.
    f_equal. now destruct (stopped (body t)).
Qed.

(** The built loop and the loop of the source agree when the length fits the
    counter. *)
Lemma find_in_list_built_within obj (items : list ref) :
  Z.of_nat (length items) <= INT_MAX ->
  find_in_list_built (length items) obj items = (find_in_list obj items, true).
Proof.
  intros Hfit. unfold find_in_list_built.
  rewrite c_loop_within by lia. f_equal.
  unfold find_in_list, c_for, list_body.
  replace (Z.min (Z.of_nat (length items)) (INT_MAX + 1))
    with (Z.of_nat (length items)) by lia.
  destruct (Z.ltb_spec INT_MAX (Z.of_nat (length items))); [lia|].
  rewrite seq_skip. unfold c_range. now rewrite Nat2Z.id.
Qed.

(** Beyond the range of the counter the loop condition never fails: the run
    after [steps] iterations is what the body yields at the wrapped values
    of the counter, and the loop has not ended. *)
Lemma c_loop_beyond {A} (body : Z -> gen A) n : forall steps t,
  INT_MAX < n -> - 2 ^ 31 <= t <= INT_MAX ->
  (forall i, - 2 ^ 31 <= i <= INT_MAX -> stopped (body i) = None) ->
  c_loop steps n t body
  = ((flat_map (fun k => yielded (body (wrap_int (t + Z.of_nat k))))
               (seq 0 steps), None), false).
Proof.
  induction steps as [|k IH]; intros t Hn Ht Hbody.
  - cbn. destruct (Z.ltb_spec t n); [reflexivity | lia].
  - cbn [c_loop]. destruct (Z.ltb_spec t n); [|lia].
    rewrite (IH (wrap_int (t + 1)) Hn (wrap_int_range _) Hbody).
    cbn [fst snd]. pose proof (Hbody t Ht) as Hstop.
    rewrite Hstop. unfold seq_. unfold stopped in Hstop. rewrite Hstop.
    cbn [fst snd seq flat_map].
    rewrite Z.add_0_r, (wrap_int_small t Ht).
    f_equal. f_equal. unfold yielded. f_equal.
    rewrite <- seq_shift, flat_map_after_map.
    apply flat_map_ext. intros j. rewrite wrap_int_add.
    do 3 f_equal. lia.
Qed.

Lemma index_checked_wrapped (items : list ref) i :
  INT_MAX < Z.of_nat (length items) -> - 2 ^ 31 <= i <= INT_MAX ->
  exists x, index_checked items i = Some x
            /\ nth_error items
                 (Z.to_nat (if i <? 0 then i + Z.of_nat (length items) else i))
               = Some x.
Proof.
  intros Hlen Hi. unfold index_checked, INT_MAX in *.
  set (j := if i <? 0 then i + Z.of_nat (length items) else i).
  assert (Hj : 0 <= j < Z.of_nat (length items))
    by (unfold j; destruct (Z.ltb_spec i 0); lia).
  destruct (Z.leb_spec 0 j); [|lia].
  destruct (Z.ltb_spec j (Z.of_nat (length items))); [|lia].
  cbn [andb]. destruct (nth_error items (Z.to_nat j)) eqn:E; [eauto|].
  apply nth_error_None in E. lia.
Qed.

(** On every list longer than the counter can count, the built loop never
    ends and never reports a position outside the range of the counter. *)
Lemma find_in_list_built_beyond obj (items : list ref) steps :
  INT_MAX < Z.of_nat (length items) ->
  snd (find_in_list_built steps obj items) = false
  /\ stopped (fst (find_in_list_built steps obj items)) = None
  /\ forall i, In i (yielded (fst (find_in_list_built steps obj items))) ->
               - 2 ^ 31 <= i <= INT_MAX
               /\ index_checked items i = Some obj.
Proof.
  intros Hlen. unfold find_in_list_built.
  rewrite c_loop_beyond; [|exact Hlen | unfold INT_MAX; lia |].
  - cbn [fst snd yielded stopped]. split; [reflexivity|]. split; [reflexivity|].
    intros i Hin. apply in_flat_map in Hin. destruct Hin as (k & _ & Hin).
    pose proof (wrap_int_range (0 + Z.of_nat k)) as Hrange.
    unfold list_body, is_ in Hin.
    destruct (index_checked items (wrap_int (0 + Z.of_nat k))) as [x|] eqn:E;
      [|easy].
    destruct (Z.eqb_spec x obj) as [Heq|_]; [|easy].
    destruct Hin as [<-|[]]. split; [exact Hrange | now rewrite E, Heq].
  - intros i Hi. unfold list_body.
    destruct (index_checked_wrapped items i Hlen Hi) as (x & -> & _).
    now destruct (is_ x obj).
Qed.

Lemma nth_error_repeat_then (a b : ref) N j x :
  nth_error (repeat a N ++ [b]) j = Some x -> x <> a -> j = N.
Proof.
  intros Hnth Hne. destruct (Nat.lt_ge_cases j N) as [Hlt|Hge].
  - rewrite nth_error_app1 in Hnth by (rewrite repeat_length; exact Hlt).
    apply nth_error_In, repeat_spec in Hnth. contradiction.
  - rewrite nth_error_app2 in Hnth by (rewrite repeat_length; exact Hge).
    rewrite repeat_length in Hnth.
    destruct (j - N)%nat as [|[|m]] eqn:E; cbn in Hnth; try discriminate. lia.
Qed.

Lemma wrapped_report (N M : nat) (items : list ref) :
  Z.of_nat N = 2 ^ 31 -> Z.of_nat M = 2 ^ 32 ->
  items = repeat 0 N ++ [1] ->
  nth_error items N = Some 1
  /\ (forall steps, snd (find_in_list_built steps 1 items) = false)
  /\ (forall steps i,
        In i (yielded (fst (find_in_list_built steps 1 items))) -> i = -1)
  /\ In (-1) (yielded (fst (find_in_list_built M 1 items))).
Proof.
  intros Hn Hm Hitems.
  assert (Hlast : nth_error items N = Some 1).
  { rewrite Hitems, nth_error_app2 by (rewrite repeat_length; lia).
    now rewrite repeat_length, Nat.sub_diag. }
  assert (Hlen : Z.of_nat (length items) = 2 ^ 31 + 1).
  { rewrite Hitems, length_app, repeat_length, Nat2Z.inj_add, Hn. reflexivity. }
  assert (Hbig : INT_MAX < Z.of_nat (length items))
    by (rewrite Hlen; unfold INT_MAX; lia).
  split; [exact Hlast|]. split; [|split].
  - intros steps. apply (find_in_list_built_beyond 1 items steps Hbig).
  - intros steps i Hin.
    destruct (find_in_list_built_beyond 1 items steps Hbig) as (_ & _ & Hyield).
    destruct (Hyield i Hin) as [Hi Hidx].
    destruct (index_checked_wrapped items i Hbig Hi) as (x & Hx & Hnth).
    rewrite Hidx in Hx. injection Hx as <-.
    rewrite Hitems in Hnth at 1.
    apply nth_error_repeat_then in Hnth; [|discriminate].
    rewrite Hlen in Hnth. unfold INT_MAX in Hi.
    destruct (Z.ltb_spec i 0); lia.
  - unfold find_in_list_built.
    rewrite c_loop_beyond; [|exact Hbig | unfold INT_MAX; lia |].
    + cbn [fst yielded]. apply in_flat_map. exists (M - 1)%nat.
      split; [apply in_seq; lia|].
      replace (wrap_int (0 + Z.of_nat (M - 1))) with (-1).
      * destruct (index_checked_wrapped items (-1) Hbig) as (x & Hx & Hnth);
          [unfold INT_MAX; lia|].
        unfold list_body. rewrite Hx.
        rewrite Hlen in Hnth. cbn [Z.ltb Z.compare] in Hnth.
        replace (Z.to_nat (-1 + (2 ^ 31 + 1))) with N in Hnth by lia.
        rewrite Hlast in Hnth. injection Hnth as <-. cbn. now left.
      * replace (0 + Z.of_nat (M - 1)) with (2 ^ 32 - 1) by lia. reflexivity.
    + intros i Hi. unfold list_body.
      destruct (index_checked_wrapped items i Hbig Hi) as (x & -> & _).
      now destruct (is_ x 1).
Qed.

(** C9. The claim fails on the code through the type of the position: [i] is
    a C integer, too narrow for a position from 2^31 on.  On the list of
    2^31 + 1 elements whose last element is the only occurrence of the
    object, the object is at position 2^31, but the built loop never ends,
    never yields 2^31, and yields -1 (and nothing else) instead, first within
    its first 2^32 iterations. *)
Theorem find_reports_wrapped_position_beyond_int :
  let items := repeat 0 (Z.to_nat (2 ^ 31)) ++ [1] in
  nth_error items (Z.to_nat (2 ^ 31)) = Some 1
  /\ (forall steps, snd (find_in_list_built steps 1 items) = false)
  /\ (forall steps i,
        In i (yielded (fst (find_in_list_built steps 1 items))) -> i = -1)
  /\ In (-1) (yielded (fst (find_in_list_built (Z.to_nat (2 ^ 32)) 1 items))).
Proof.
  cbv zeta.
  apply (wrapped_report (Z.to_nat (2 ^ 31)) (Z.to_nat (2 ^ 32))).
  - apply Z2Nat.id. lia.
  - apply Z2Nat.id. lia.
  - reflexivity.
Qed.

(** ** Totality, and the calls into user code *)

Lemma for_ext {X A} (xs : list X) (f g : X -> gen A) :
  (forall x, f x = g x) -> for_ xs f = for_ xs g.
Proof.
  intros H. induction xs as [|x xs IH]; [reflexivity|].
  cbn [for_]. now rewrite H, IH.
Qed.

Section UserCodeFacts.

Variable hash_ : ref -> exn + Z.
Variable eq_ : ref -> ref -> exn + bool.
Variable repr_ : ref -> exn + string.

(** A key that is still stored under its hash is found, as long as no
    comparison on the way raises. *)
Lemma probe_finds h key (es : list entry) :
  (exists e, In e es /\ e_hash e = h /\ e_key e = key) ->
  (forall e, In e es -> exists b, eq_ (e_key e) key = inr b) ->
  exists v, probe eq_ h key es = inr v.
Proof.
  induction es as [|e es IH]; intros (e0 & Hin & Hh & Hk) Heq; [destruct Hin|].
  cbn [probe]. destruct (Z.eqb_spec (e_hash e) h) as [Hsame|Hother].
  - unfold is_. destruct (Z.eqb_spec (e_key e) key) as [_|Hne]; [eauto|].
    destruct (Heq e (or_introl eq_refl)) as [[|] ->]; [eauto|].
    apply IH.
    + destruct Hin as [->|Hin]; [congruence|]. eauto.
    + intros e' He'. apply Heq. now right.
  - apply IH.
    + destruct Hin as [->|Hin]; [congruence|]. eauto.
    + intros e' He'. apply Heq. now right.
Qed.

Lemma hdict_getitem_finds (d : hdict) key :
  In key (hdict_keys d) ->
  (forall e, In e d -> hash_ (e_key e) = inr (e_hash e)) ->
  (forall e e', In e d -> In e' d -> exists b, eq_ (e_key e) (e_key e') = inr b) ->
  exists v, hdict_getitem hash_ eq_ d key = inr v.
Proof.
  intros Hkey Hhash Heq. apply in_map_iff in Hkey.
  destruct Hkey as (e0 & <- & He0).
  unfold hdict_getitem. rewrite (Hhash e0 He0).
  apply probe_finds; [eauto|]. intros e He. now apply Heq.
Qed.

Lemma dict_calls_run_ends (d : hdict) referents :
  (forall e, In e d -> hash_ (e_key e) = inr (e_hash e)) ->
  (forall e e', In e d -> In e' d -> exists b, eq_ (e_key e) (e_key e') = inr b) ->
  (forall e, In e d -> exists s, repr_ (e_key e) = inr s) ->
  stopped (get_dict_keys_dst_calls hash_ eq_ repr_ d referents) = None.
Proof.
  intros Hhash Heq Hrepr. unfold get_dict_keys_dst_calls.
  assert (Hinner : forall r, stopped (for_ (hdict_keys d) (fun key =>
            (if is_ r key then yield (LStr key_sentinel, r) else skip) ;;
            match hdict_getitem hash_ eq_ d key with
            | inl x => raise x
            | inr v =>
                if is_ v r then
                  match repr_ key with
                  | inl x => raise x
                  | inr s => yield (LStr s, r)
                  end
                else skip
            end)) = None).
  { intros r. rewrite for_pure; [reflexivity|].
    intros key Hkey.
    destruct (hdict_getitem_finds d key Hkey Hhash Heq) as [v ->].
    apply in_map_iff in Hkey. destruct Hkey as (e & <- & He).
    destruct (Hrepr e He) as [s ->].
    destruct (is_ r (e_key e)); destruct (is_ v r); reflexivity. }
  rewrite for_pure; [reflexivity|]. intros r _. apply Hinner.
Qed.

End UserCodeFacts.

(** With user code that never raises and hashes that play no part, the run
    with the calls made explicit is the run of [get_dict_keys_dst]. *)
Lemma probe_as_getitem key_eq (d : dict) key :
  probe (fun a b => inr (key_eq a b)) 0 key (with_hashes d)
  = match dict_getitem key_eq d key with
    | Some v => inr v
    | None => inl KeyError
    end.
Proof.
  unfold dict_getitem. induction d as [|e d IH]; [reflexivity|].
  cbn [with_hashes map probe find e_hash e_key e_value]. fold (with_hashes d).
  unfold key_match. cbn [Z.eqb].
  destruct (is_ (fst e) key); cbn [orb]; [reflexivity|].
  destruct (key_eq (fst e) key); [reflexivity | exact IH].
Qed.

Lemma dict_calls_run_agrees repr key_eq (d : dict) referents :
  get_dict_keys_dst_calls (fun _ => inr 0) (fun a b => inr (key_eq a b))
                          (fun k => inr (repr k)) (with_hashes d) referents
  = get_dict_keys_dst repr key_eq d referents.
Proof.
  unfold get_dict_keys_dst_calls, get_dict_keys_dst.
  apply for_ext. intros r.
  replace (hdict_keys (with_hashes d)) with (dict_keys d)
    by (unfold hdict_keys, with_hashes, dict_keys; now rewrite map_map).
  apply for_ext. intros key. f_equal.
  unfold hdict_getitem. rewrite probe_as_getitem.
  destruct (dict_getitem key_eq d key) as [v|]; reflexivity.
Qed.

(** C7, as stated (no lookup and so no helper can raise on any dict), fails:
    a key that was stored under hash 5 and hashes to 6 now is produced by the
    iteration over the dict and is not found by [obj[key]], so the run ends
    with [KeyError]; and with the hash unchanged, a [__repr__] that raises
    ends the run with its exception. *)
Lemma dict_helper_raises_from_user_code :
  let d := [{| e_hash := 5; e_key := 1; e_value := 2 |}] in
  In 1 (hdict_keys d)
  /\ hdict_getitem hash_six eq_false d 1 = inl KeyError
  /\ get_dict_keys_dst_calls hash_six eq_false repr_short d [2]
     = ([], Some (Raised KeyError))
  /\ get_dict_keys_dst_calls hash_five eq_false repr_raises d [2]
     = ([], Some (Raised (OtherError "ValueError"))).
Proof.
  cbv zeta. split; [now left|]. repeat split.
Qed.

(** C7, amended. On every list and tuple, each index that
    [find_in_tuple_or_list] reads is inside the container and no read
    raises, and on a container of at most 2^31 - 1 elements the run ends
    normally.  [get_dict_keys_dst] has no handler for the user code that
    [obj[key]] and [repr(key)] run; on a dict whose keys still hash to the
    hash they were stored under, whose key comparisons do not raise and whose
    keys have a [repr], every lookup finds its key and the run ends
    normally.  (On a longer list the built loop raises nothing either; that
    it never ends there is the subject of C9.) *)
Theorem shape_helpers_raise_only_from_user_code
        hash_ eq_ repr_ (obj : ref) (items : list ref) (d : hdict) referents :
  (forall e, In e d -> hash_ (e_key e) = inr (e_hash e)) ->
  (forall e e', In e d -> In e' d ->
     exists b, eq_ (e_key e) (e_key e') = inr b) ->
  (forall e, In e d -> exists s, repr_ (e_key e) = inr s) ->
  (forall i, In i (positions_read (Z.of_nat (length items))) ->
     0 <= i < Z.of_nat (length items)
     /\ exists x, index_checked items i = Some x)
  /\ (forall e, stopped (find_in_tuple_or_list obj (CList items))
                <> Some (Raised e))
  /\ (forall e, stopped (find_in_tuple_or_list obj (CTuple items))
                <> Some (Raised e))
  /\ (Z.of_nat (length items) <= INT_MAX ->
      stopped (find_in_tuple_or_list obj (CList items)) = None
      /\ stopped (find_in_tuple_or_list obj (CTuple items)) = None)
  /\ (INT_MAX < Z.of_nat (length items) ->
      forall steps, stopped (fst (find_in_list_built steps obj items)) = None)
  /\ (forall key, In key (hdict_keys d) ->
        exists v, hdict_getitem hash_ eq_ d key = inr v)
  /\ stopped (get_dict_keys_dst_calls hash_ eq_ repr_ d referents) = None.
Proof.
  intros Hhash Heq Hrepr.
  assert (Hend : forall e, end_of_run (Z.of_nat (length items))
                           <> Some (Raised e)).
  { intros e. unfold end_of_run. now destruct (INT_MAX <? _). }
  assert (Hread : forall i, In i (positions_read (Z.of_nat (length items))) ->
                            0 <= i < Z.of_nat (length items)).
  { intros i Hi. apply in_c_range in Hi. lia. }
  split; [|split; [|split; [|split; [|split; [|split]]]]].
  - intros i Hi. split; [now apply Hread|].
    destruct (index_checked_inside items i (Hread i Hi)) as [-> Hx]. exact Hx.
  - intros e. cbn [find_in_tuple_or_list]. rewrite find_in_list_run. apply Hend.
  - intros e. cbn [find_in_tuple_or_list].
    rewrite find_in_tuple_as_list, find_in_list_run. apply Hend.
  - intros Hfit.
    rewrite (find_run_fits obj items (CList items) Hfit (or_introl eq_refl)).
    rewrite (find_run_fits obj items (CTuple items) Hfit (or_intror eq_refl)).
    split; reflexivity.
  - intros Hbig steps.
    apply (find_in_list_built_beyond obj items steps Hbig).
  - intros key Hkey. now apply hdict_getitem_finds.
  - now apply dict_calls_run_ends.
Qed.

Lemma shape_helpers_raise_only_from_user_code_witness :
  stopped (find_in_tuple_or_list 5 (CList [5; 7; 5])) = None
  /\ stopped (get_dict_keys_dst_calls hash_five eq_false repr_short
                [{| e_hash := 5; e_key := 1; e_value := 2 |}] [2; 1]) = None
  /\ get_dict_keys_dst_calls hash_five eq_false repr_short
       [{| e_hash := 5; e_key := 1; e_value := 2 |}] [2; 1]
     = ([(LStr "<C 1>"%string, 2); (LStr key_sentinel, 1)], None).
Proof.
  assert (Hhash : forall e,
            In e [{| e_hash := 5; e_key := 1; e_value := 2 |}] ->
            hash_five (e_key e) = inr (e_hash e))
    by (intros e [<-|[]]; reflexivity).
  assert (Heq : forall e e',
            In e [{| e_hash := 5; e_key := 1; e_value := 2 |}] ->
            In e' [{| e_hash := 5; e_key := 1; e_value := 2 |}] ->
            exists b, eq_false (e_key e) (e_key e') = inr b)
    by (intros e e' _ _; now exists false).
  assert (Hrepr : forall e,
            In e [{| e_hash := 5; e_key := 1; e_value := 2 |}] ->
            exists s, repr_short (e_key e) = inr s)
    by (intros e _; now exists (short_repr (e_key e))).
  destruct (shape_helpers_raise_only_from_user_code hash_five eq_false
              repr_short 5 [5; 7; 5]
              [{| e_hash := 5; e_key := 1; e_value := 2 |}] [2; 1]
              Hhash Heq Hrepr) as (_ & _ & _ & Hfit & _ & _ & Hdict).
  split; [|split; [exact Hdict | reflexivity]].
  apply Hfit. unfold INT_MAX. cbn. lia.
Defined.
